(** * Bounded Stack and Queue of the stack-queue visualizer

    A shallow embedding of the two container classes of [js/main.js]
    ([Queue], [Stack]) and of the command handlers of the two demo
    controllers ([StackDemo], [QueueDemo]), followed by the properties
    of the specification and by further properties of the code.
    [Stack] is the class on integer capacities, [StackN] the class on
    any number as capacity.

    JavaScript objects are mutable: a method is a function from the
    object's state to an outcome (a returned value or a thrown error)
    and the state it leaves behind. *)

From Stdlib Require Import String Ascii.
From Stdlib Require Import List ZArith NArith QArith Bool Lia.
Import ListNotations.
Open Scope Z_scope.

Set Implicit Arguments.

(** ** JavaScript strings and values *)

(** A string is its sequence of UTF-16 code units; [length] is the
    [.length] property. *)
Definition jsstring := list N.

(** A source literal made of ASCII characters only. *)
Definition str (s : string) : jsstring :=
  map N_of_ascii (list_ascii_of_string s).

(** WhiteSpace and LineTerminator code points, the ones
    [String.prototype.trim] strips. *)
Definition isWhiteSpace (c : N) : bool :=
  ((c =? 0x09) || (c =? 0x0A) || (c =? 0x0B) || (c =? 0x0C) || (c =? 0x0D)
   || (c =? 0x20) || (c =? 0xA0) || (c =? 0x1680)
   || ((0x2000 <=? c) && (c <=? 0x200A))
   || (c =? 0x2028) || (c =? 0x2029) || (c =? 0x202F) || (c =? 0x205F)
   || (c =? 0x3000) || (c =? 0xFEFF))%N.

Fixpoint trimStart (s : jsstring) : jsstring :=
  match s with
  | [] => []
  | c :: rest => if isWhiteSpace c then trimStart rest else s
  end.

Definition trimEnd (s : jsstring) : jsstring := rev (trimStart (rev s)).

Definition trim (s : jsstring) : jsstring := trimEnd (trimStart s).

(** The values the containers hold.  The numbers among them are the
    integers and [NaN], the one value that is not [===] to itself;
    nothing below looks inside a number otherwise. *)
Inductive value : Type :=
| VUndefined
| VNull
| VNum (n : Z)
| VNaN
| VStr (s : jsstring).

(** [element === undefined || element === null || element === ''] *)
Definition isEmptyValue (element : value) : bool :=
  match element with
  | VUndefined | VNull => true
  | VStr [] => true
  | _ => false
  end.

(** ** Thrown errors *)

(** Each constructor stands for one [throw] of the source, named after
    the message it carries:
    - [StackOverflow]:  'Stack overflow: Maximum size reached'
    - [InvalidElement]: 'Invalid element: Cannot push empty value'
    - [StackUnderflow]: 'Stack underflow: Cannot pop from empty stack'
    - [InvalidSize]:    'Invalid size: Maximum size must be at least 1'
    - [QueueOverflow m]: `Queue overflow! Maximum size is ${m}`
    - [TypeError name]: the call of a property that is not a function. *)
Inductive error : Type :=
| StackOverflow
| InvalidElement
| StackUnderflow
| InvalidSize
| QueueOverflow (maxSize : Z)
| TypeError (callee : string).

Inductive outcome (A : Type) : Type :=
| Return (a : A)
| Throw (e : error).

Arguments Return {A} a.
Arguments Throw {A} e.

(** ** Array primitives *)

(** [arr.length] as a JavaScript number. *)
Definition len (A : Type) (arr : list A) : Z := Z.of_nat (length arr).

(** [arr[i]]: [undefined] outside the array. *)
Definition Array_get (arr : list value) (i : Z) : value :=
  if i <? 0 then VUndefined
  else nth (Z.to_nat i) arr VUndefined.

(** [arr.push(x)] *)
Definition Array_push (arr : list value) (x : value) : list value :=
  arr ++ [x].

(** [arr.pop()]: the last element and the shortened array. *)
Definition Array_pop (arr : list value) : value * list value :=
  match arr with
  | [] => (VUndefined, [])
  | _ :: _ => (last arr VUndefined, removelast arr)
  end.

(** [arr.shift()]: the first element and the rest. *)
Definition Array_shift (arr : list value) : value * list value :=
  match arr with
  | [] => (VUndefined, [])
  | x :: rest => (x, rest)
  end.

(** [arr.slice(start)] for an integer [start]: a negative [start]
    counts from the end, and the index is clamped to the array. *)
Definition Array_slice (arr : list value) (start : Z) : list value :=
  let k := if start <? 0 then Z.max (len arr + start) 0
           else Z.min start (len arr) in
  skipn (Z.to_nat k) arr.

(** ** Numbers *)

(** A JavaScript number as a capacity can be one: [NaN], an infinity,
    or a finite number, taken by its exact rational value.  Only
    comparisons, the unary minus and the truncation to an integer are
    used on it, and these are exact on floating-point numbers. *)
Inductive number : Type :=
| NaN
| NegInfinity
| Finite (q : Q)
| Infinity.

Definition of_int (z : Z) : number := Finite (inject_Z z).

(** [a <= b] and [a < b]: false as soon as one side is [NaN]. *)
Definition number_le (a b : number) : bool :=
  match a, b with
  | NaN, _ | _, NaN => false
  | NegInfinity, _ => true
  | _, Infinity => true
  | Finite p, Finite q => Qle_bool p q
  | _, _ => false
  end.

Definition number_lt (a b : number) : bool :=
  match a, b with
  | NaN, _ | _, NaN => false
  | NegInfinity, NegInfinity => false
  | NegInfinity, _ => true
  | Infinity, _ => false
  | Finite _, Infinity => true
  | Finite _, NegInfinity => false
  | Finite p, Finite q => negb (Qle_bool q p)
  end.

(** [a >= b] and [a > b] *)
Definition number_ge (a b : number) : bool := number_le b a.

Definition number_gt (a b : number) : bool := number_lt b a.

(** [-a] *)
Definition number_neg (a : number) : number :=
  match a with
  | NaN => NaN
  | NegInfinity => Infinity
  | Finite q => Finite (Qopp q)
  | Infinity => NegInfinity
  end.

(** [arr.slice(start)] for any number: [start] is truncated towards
    zero, [NaN] counts as 0, and the infinities are clamped to the
    ends of the array. *)
Definition Array_slice_number (arr : list value) (start : number)
  : list value :=
  match start with
  | NaN => Array_slice arr 0
  | NegInfinity => Array_slice arr 0
  | Finite q => Array_slice arr (Z.quot (Qnum q) (Zpos (Qden q)))
  | Infinity => Array_slice arr (len arr)
  end.

(** ** Strict equality and searching in arrays *)

Fixpoint jsstring_eqb (s1 s2 : jsstring) : bool :=
  match s1, s2 with
  | [], [] => true
  | c1 :: r1, c2 :: r2 => (c1 =? c2)%N && jsstring_eqb r1 r2
  | _, _ => false
  end.

(** [a === b]: [NaN === NaN] is false. *)
Definition strictEq (a b : value) : bool :=
  match a, b with
  | VUndefined, VUndefined => true
  | VNull, VNull => true
  | VNum n, VNum m => n =? m
  | VStr s1, VStr s2 => jsstring_eqb s1 s2
  | _, _ => false
  end.

(** [arr.indexOf(x)]: the first index holding [x], or -1. *)
Fixpoint Array_indexOf_from (arr : list value) (x : value) (i : Z) : Z :=
  match arr with
  | [] => -1
  | y :: rest =>
      if strictEq y x then i else Array_indexOf_from rest x (i + 1)
  end.

Definition Array_indexOf (arr : list value) (x : value) : Z :=
  Array_indexOf_from arr x 0.

(** SameValueZero, the comparison of [includes]: as [===], but [NaN]
    is the same as [NaN]. *)
Definition sameValueZero (a b : value) : bool :=
  match a, b with
  | VNaN, VNaN => true
  | _, _ => strictEq a b
  end.

(** [arr.includes(x)] *)
Definition Array_includes (arr : list value) (x : value) : bool :=
  existsb (fun y => sameValueZero y x) arr.

(** ** class Stack *)

(** The class on the capacities that are integers (below 2^53, where
    numbers count exactly): the 10 of the constructor and every integer
    given to [setMaxSize].  [StackN] below is the same class with a
    capacity that is any number. *)
Module Stack.

Record t : Type := mk {
  items : list value;
  maxSize : Z
}.

(** [constructor()] *)
Definition new : t := {| items := []; maxSize := 10 |}.

Definition isEmpty (this : t) : bool := len (items this) =? 0.

Definition size (this : t) : Z := len (items this).

Definition isFull (this : t) : bool := len (items this) >=? maxSize this.

(** [Array.isArray(this.items)] holds by typing. *)
Definition isValid (this : t) : bool :=
  (len (items this) <=? maxSize this) && (maxSize this >? 0).

Definition push (element : value) (this : t) : outcome bool * t :=
  if len (items this) >=? maxSize this then (Throw StackOverflow, this)
  else if isEmptyValue element then (Throw InvalidElement, this)
  else (Return true,
        {| items := Array_push (items this) element;
           maxSize := maxSize this |}).

Definition pop (this : t) : outcome value * t :=
  if isEmpty this then (Throw StackUnderflow, this)
  else let (top, rest) := Array_pop (items this) in
       (Return top, {| items := rest; maxSize := maxSize this |}).

Definition peek (this : t) : outcome value * t :=
  if isEmpty this then (Return VNull, this)
  else (Return (Array_get (items this) (len (items this) - 1)), this).

Definition clear (this : t) : outcome unit * t :=
  (Return tt, {| items := []; maxSize := maxSize this |}).

Definition setMaxSize (size : Z) (this : t) : outcome unit * t :=
  if size <? 1 then (Throw InvalidSize, this)
  else
    (Return tt,
     {| items := if len (items this) >? size
                 then Array_slice (items this) (- size)
                 else items this;
        maxSize := size |}).

(** [this.push(v1); this.push(v2); ...]: the first throw ends the
    sequence. *)
Fixpoint push_all (vs : list value) (this : t) : outcome unit * t :=
  match vs with
  | [] => (Return tt, this)
  | v :: rest =>
      match push v this with
      | (Return _, this') => push_all rest this'
      | (Throw e, this') => (Throw e, this')
      end
  end.

(** The results of [n] successive [this.pop()] calls, in call order. *)
Fixpoint pop_n (n : nat) (this : t) : outcome (list value) * t :=
  match n with
  | O => (Return [], this)
  | S k =>
      match pop this with
      | (Return v, this') =>
          match pop_n k this' with
          | (Return vs, this'') => (Return (v :: vs), this'')
          | (Throw e, this'') => (Throw e, this'')
          end
      | (Throw e, this') => (Throw e, this')
      end
  end.

(** The calls a client can make on a stack, and the state a call
    leaves: a call that throws has not written to the object. *)
Inductive op : Type :=
| Push (element : value)
| Pop
| Peek
| Clear
| SetMaxSize (size : Z).

Definition exec (o : op) (this : t) : t :=
  match o with
  | Push element => snd (push element this)
  | Pop => snd (pop this)
  | Peek => snd (peek this)
  | Clear => snd (clear this)
  | SetMaxSize size => snd (setMaxSize size this)
  end.

Definition run (ops : list op) (this : t) : t :=
  fold_left (fun s o => exec o s) ops this.

(** [0 <= len(items) <= capacity] *)
Definition inv (this : t) : Prop :=
  0 <= len (items this) <= maxSize this.

(** *** The other methods of the class *)

(** [toArray()]: a copy, bottom to top. *)
Definition toArray (this : t) : list value := items this.

Definition contains (element : value) (this : t) : bool :=
  Array_includes (items this) element.

(** [at(index)]; a negative index counts from the top. *)
Definition at_ (index : Z) (this : t) : value :=
  if index <? 0 then Array_get (items this) (len (items this) + index)
  else Array_get (items this) index.

Definition getMaxSize (this : t) : Z := maxSize this.

Definition getRemainingCapacity (this : t) : Z :=
  maxSize this - len (items this).

(** [clone()]: a new stack with the same capacity and a copy of the
    array. *)
Definition clone (this : t) : t :=
  {| items := items this; maxSize := maxSize this |}.

(** [reverse()]: the array is reversed in place. *)
Definition reverse (this : t) : outcome unit * t :=
  (Return tt, {| items := rev (items this); maxSize := maxSize this |}).

(** [search(element)]: the loop [for (i = length - 1; i >= 0; i--)],
    [n] being the number of iterations left. *)
Fixpoint search_loop (arr : list value) (element : value) (n : nat) (i : Z)
  : Z :=
  match n with
  | O => -1
  | S k =>
      if strictEq (Array_get arr i) element then len arr - 1 - i
      else search_loop arr element k (i - 1)
  end.

Definition search (element : value) (this : t) : Z :=
  search_loop (items this) element (length (items this))
    (len (items this) - 1).

(** The object [getStats()] returns. *)
Record stats : Type := mkStats {
  stats_size : Z;
  stats_maxSize : Z;
  stats_isEmpty : bool;
  stats_isFull : bool;
  stats_remainingCapacity : Z;
  stats_top : value;
  stats_bottom : value
}.

Definition getStats (this : t) : stats :=
  {| stats_size := size this;
     stats_maxSize := maxSize this;
     stats_isEmpty := isEmpty this;
     stats_isFull := isFull this;
     stats_remainingCapacity := getRemainingCapacity this;
     stats_top := match fst (peek this) with
                  | Return v => v
                  | Throw _ => VUndefined
                  end;
     stats_bottom := if len (items this) >? 0
                     then Array_get (items this) 0 else VNull |}.

(** [*[Symbol.iterator]()]: what the generator yields when it is run
    to its end on a stack nobody writes to meanwhile. *)
Fixpoint iterator_loop (arr : list value) (n : nat) (i : Z) : list value :=
  match n with
  | O => []
  | S k => Array_get arr i :: iterator_loop arr k (i - 1)
  end.

Definition iterator (this : t) : list value :=
  iterator_loop (items this) (length (items this)) (len (items this) - 1).

(** The object [toJSON()] returns, and any object handed to
    [fromJSON]: a property that is missing is [None]. *)
Record json : Type := mkJson {
  json_type : option string;
  json_items : option (list value);
  json_maxSize : option Z;
  json_size : option Z;
  json_top : option value
}.

Definition toJSON (this : t) : json :=
  {| json_type := Some "Stack"%string;
     json_items := Some (items this);
     json_maxSize := Some (maxSize this);
     json_size := Some (size this);
     json_top := match fst (peek this) with
                 | Return v => Some v
                 | Throw _ => None
                 end |}.

(** [Stack.fromJSON(json)]; [None] is the throw of
    'Invalid JSON: Not a Stack representation', and an argument [None]
    is [null] or [undefined].  Among the integers the only capacity
    that [json.maxSize || 10] replaces is 0. *)
Definition fromJSON (j : option json) : option t :=
  match j with
  | None => None
  | Some j =>
      match json_type j with
      | Some ty =>
          if String.eqb ty "Stack" then
            Some {| items := match json_items j with
                             | Some arr => arr
                             | None => []
                             end;
                    maxSize := match json_maxSize j with
                               | Some m => if m =? 0 then 10 else m
                               | None => 10
                               end |}
          else None
      | None => None
      end
  end.

(** The loop of [merge]: [for (const item of otherArray)]. *)
Fixpoint merge_loop (otherArray : list value) (merged : t)
  : outcome unit * t :=
  match otherArray with
  | [] => (Return tt, merged)
  | item :: rest =>
      if negb (isFull merged) then
        match push item merged with
        | (Return _, merged') => merge_loop rest merged'
        | (Throw e, merged') => (Throw e, merged')
        end
      else (Return tt, merged)
  end.

(** [merge(other)], for [other] a stack: the new stack it returns.
    Neither [this] nor [other] is written. *)
Definition merge (other : t) (this : t) : outcome t :=
  match merge_loop (toArray other) (clone this) with
  | (Return _, merged) => Return merged
  | (Throw e, _) => Throw e
  end.

(** The calls of [op] and [reverse()]. *)
Inductive method : Type :=
| Op (o : op)
| Reverse.

Definition call (m : method) (this : t) : t :=
  match m with
  | Op o => exec o this
  | Reverse => snd (reverse this)
  end.

Definition calls (ms : list method) (this : t) : t :=
  fold_left (fun s m => call m s) ms this.

End Stack.

(** ** class Stack, with any number as its capacity *)

(** [setMaxSize] takes whatever number passes [size < 1]: a fraction,
    [Infinity], [NaN].  This is the class with such a capacity; its
    methods are those of [Stack], with the comparisons of numbers. *)
Module StackN.

Record t : Type := mk {
  items : list value;
  maxSize : number
}.

(** [constructor()] *)
Definition new : t := {| items := []; maxSize := of_int 10 |}.

Definition isEmpty (this : t) : bool := len (items this) =? 0.

Definition size (this : t) : Z := len (items this).

Definition isFull (this : t) : bool :=
  number_ge (of_int (len (items this))) (maxSize this).

Definition isValid (this : t) : bool :=
  number_le (of_int (len (items this))) (maxSize this)
  && number_gt (maxSize this) (of_int 0).

Definition push (element : value) (this : t) : outcome bool * t :=
  if number_ge (of_int (len (items this))) (maxSize this)
  then (Throw StackOverflow, this)
  else if isEmptyValue element then (Throw InvalidElement, this)
  else (Return true,
        {| items := Array_push (items this) element;
           maxSize := maxSize this |}).

Definition pop (this : t) : outcome value * t :=
  if isEmpty this then (Throw StackUnderflow, this)
  else let (top, rest) := Array_pop (items this) in
       (Return top, {| items := rest; maxSize := maxSize this |}).

Definition peek (this : t) : outcome value * t :=
  if isEmpty this then (Return VNull, this)
  else (Return (Array_get (items this) (len (items this) - 1)), this).

Definition clear (this : t) : outcome unit * t :=
  (Return tt, {| items := []; maxSize := maxSize this |}).

Definition setMaxSize (size : number) (this : t) : outcome unit * t :=
  if number_lt size (of_int 1) then (Throw InvalidSize, this)
  else
    (Return tt,
     {| items := if number_gt (of_int (len (items this))) size
                 then Array_slice_number (items this) (number_neg size)
                 else items this;
        maxSize := size |}).

Definition reverse (this : t) : outcome unit * t :=
  (Return tt, {| items := rev (items this); maxSize := maxSize this |}).

(** The calls that write to a stack, or read its top. *)
Inductive method : Type :=
| Push (element : value)
| Pop
| Peek
| Clear
| SetMaxSize (size : number)
| Reverse.

Definition call (m : method) (this : t) : t :=
  match m with
  | Push element => snd (push element this)
  | Pop => snd (pop this)
  | Peek => snd (peek this)
  | Clear => snd (clear this)
  | SetMaxSize size => snd (setMaxSize size this)
  | Reverse => snd (reverse this)
  end.

Definition calls (ms : list method) (this : t) : t :=
  fold_left (fun s m => call m s) ms this.

(** A stack of [Stack], and a call on it, seen here. *)
Definition of_Stack (s : Stack.t) : t :=
  {| items := Stack.items s; maxSize := of_int (Stack.maxSize s) |}.

Definition of_method (m : Stack.method) : method :=
  match m with
  | Stack.Op (Stack.Push element) => Push element
  | Stack.Op Stack.Pop => Pop
  | Stack.Op Stack.Peek => Peek
  | Stack.Op Stack.Clear => Clear
  | Stack.Op (Stack.SetMaxSize size) => SetMaxSize (of_int size)
  | Stack.Reverse => Reverse
  end.

End StackN.

(** ** class Queue *)

Module Queue.

Record t : Type := mk {
  items : list value;
  maxSize : Z
}.

(** [constructor()] *)
Definition new : t := {| items := []; maxSize := 50 |}.

Definition isEmpty (this : t) : bool := len (items this) =? 0.

Definition size (this : t) : Z := len (items this).

Definition enqueue (item : value) (this : t) : outcome bool * t :=
  if size this >=? maxSize this
  then (Throw (QueueOverflow (maxSize this)), this)
  else (Return true,
        {| items := Array_push (items this) item;
           maxSize := maxSize this |}).

Definition dequeue (this : t) : outcome value * t :=
  if isEmpty this then (Return VNull, this)
  else let (first, rest) := Array_shift (items this) in
       (Return first, {| items := rest; maxSize := maxSize this |}).

Definition front (this : t) : outcome value * t :=
  if isEmpty this then (Return VNull, this)
  else (Return (Array_get (items this) 0), this).

Definition rear (this : t) : outcome value * t :=
  if isEmpty this then (Return VNull, this)
  else (Return (Array_get (items this) (len (items this) - 1)), this).

Definition clear (this : t) : outcome unit * t :=
  (Return tt, {| items := []; maxSize := maxSize this |}).

(** [this.enqueue(v1); this.enqueue(v2); ...] *)
Fixpoint enqueue_all (vs : list value) (this : t) : outcome unit * t :=
  match vs with
  | [] => (Return tt, this)
  | v :: rest =>
      match enqueue v this with
      | (Return _, this') => enqueue_all rest this'
      | (Throw e, this') => (Throw e, this')
      end
  end.

(** The results of [n] successive [this.dequeue()] calls. *)
Fixpoint dequeue_n (n : nat) (this : t) : outcome (list value) * t :=
  match n with
  | O => (Return [], this)
  | S k =>
      match dequeue this with
      | (Return v, this') =>
          match dequeue_n k this' with
          | (Return vs, this'') => (Return (v :: vs), this'')
          | (Throw e, this'') => (Throw e, this'')
          end
      | (Throw e, this') => (Throw e, this')
      end
  end.

Inductive op : Type :=
| Enqueue (item : value)
| Dequeue
| Front
| Rear
| Clear.

Definition exec (o : op) (this : t) : t :=
  match o with
  | Enqueue item => snd (enqueue item this)
  | Dequeue => snd (dequeue this)
  | Front => snd (front this)
  | Rear => snd (rear this)
  | Clear => snd (clear this)
  end.

Definition run (ops : list op) (this : t) : t :=
  fold_left (fun q o => exec o q) ops this.

Definition inv (this : t) : Prop :=
  0 <= len (items this) <= maxSize this.

(** *** The other methods of the class *)

Definition toArray (this : t) : list value := items this.

Definition search (item : value) (this : t) : Z :=
  Array_indexOf (items this) item.

Definition contains (item : value) (this : t) : bool :=
  Array_includes (items this) item.

End Queue.

(** ** The notification object and what the handlers leave outside *)

(** A message handed to a notification: a literal of the source, a
    template literal [`prefix${v}`], the [message] of a caught error,
    or no text at all ([null], or an argument left out). *)
Inductive text : Type :=
| Lit (s : string)
| Tpl (prefix : string) (v : value)
| ErrorMessage (e : error)
| NoText.

(** The calls a handler makes outside its own object, in order. *)
Inductive event : Type :=
| ValidationErrorCall (field : string) (message : text)
    (* window.notifications.validationError(field, message) *)
| StackCall (method : string) (arg : option value)
    (* window.notifications.stack.<method>(arg) *)
| NotifyCall (type : string) (message : text)
    (* notifications[type](message) *)
| ToastCreated (type : string) (message : text)
    (* QueueDemo.createToast(message, type) *)
| ConsoleWarn (type : string)
| ConsoleLog (type : string).

(** The object bound to [window.notifications], by the properties the
    handlers look up: its function-valued properties, and those of its
    [stack] property when it has one.  The functions are taken to
    return, as those of [NotificationSystem] do; an object with a
    property of these names that is not a function, or whose function
    throws, is not among the notifiers. *)
Record Notifier : Type := mkNotifier {
  methods : list string;
  stack_methods : option (list string)
}.

Definition has (names : list string) (name : string) : bool :=
  existsb (String.eqb name) names.

(** [new NotificationSystem()] of [js/utils/notifications.js], the
    object that file binds to [window.notifications]. *)
Definition NotificationSystem : Notifier :=
  {| methods :=
       ["init"; "createContainer"; "injectStyles"; "show"; "createToast";
        "remove"; "clear"; "success"; "error"; "warning"; "info";
        "getDefaultTitle"; "getIcon"; "escapeHtml"; "update";
        "getActiveToasts"; "setMaxToasts"; "setDefaultDuration"]%string;
     stack_methods := None |}.

(** [None] is a page on which [window.notifications] is undefined
    (the script was not loaded); [null] is not considered. *)
Definition page := option Notifier.

(** ** class StackDemo *)

Module StackDemo.

(** The controller's stack and the text of its input element.  The
    element nodes of the page are written, never read back, by the
    handler below, and are left out. *)
Record t : Type := mk {
  stack : Stack.t;
  input : jsstring
}.

(** [window.notifications.stack?.[m]?.(arg)] *)
Definition stack_call (n : Notifier) (m : string) (arg : option value)
  : list event :=
  match stack_methods n with
  | Some ms => if has ms m then [StackCall m arg] else []
  | None => []
  end.

Definition notify (w : page) (type : string) (message : text)
  (v : value) : outcome unit * list event :=
  match w with
  | None => (Return tt, [ConsoleWarn type])
  | Some n =>
      if String.eqb type "validation" then
        if has (methods n) "validationError"
        then (Return tt, [ValidationErrorCall "Input" message])
        else (Throw (TypeError "window.notifications.validationError"), [])
      else if String.eqb type "stack.pushed" then
        (Return tt, stack_call n "pushed" (Some v))
      else if String.eqb type "stack.popped" then
        (Return tt, stack_call n "popped" (Some v))
      else if String.eqb type "stack.peeked" then
        (Return tt, stack_call n "peeked" (Some v))
      else if String.eqb type "stack.overflow" then
        (Return tt, stack_call n "overflow" None)
      else if String.eqb type "stack.empty" then
        (Return tt, stack_call n "empty" None)
      else if String.eqb type "stack.cleared" then
        (Return tt, stack_call n "cleared" None)
      else if String.eqb type "info" then
        (Return tt,
         if has (methods n) "info" then [NotifyCall "info" message] else [])
      else (Return tt, [ConsoleLog type])
  end%string.

(** [push()], the handler of the Push button and of the Enter key. *)
Definition push (w : page) (this : t) : outcome unit * t * list event :=
  let value := trim (input this) in
  match value with
  | [] =>
      let (r, evs) :=
        notify w "validation" (Lit "Please enter a value") VNull in
      (r, this, evs)
  | _ :: _ =>
      if len value >? 15 then
        let (r, evs) :=
          notify w "validation"
            (Lit "Value too long (max 15 characters)") VNull in
        (r, this, evs)
      else
        match Stack.push (VStr value) (stack this) with
        | (Return _, stack') =>
            let this' := {| stack := stack'; input := [] |} in
            match notify w "stack.pushed" NoText (VStr value) with
            | (Return _, evs) => (Return tt, this', evs)
            | (Throw _, evs) =>
                let (r, evs') := notify w "stack.overflow" NoText VNull in
                (r, this', evs ++ evs')
            end
        | (Throw _, stack') =>
            let (r, evs) := notify w "stack.overflow" NoText VNull in
            (r, {| stack := stack'; input := input this |}, evs)
        end
  end.

(** *** The other handlers *)

(** [validateInput()]: the [disabled] flag and the [title] it writes
    to the Push button, when the page has one. *)
Definition validateInput (this : t) : bool * string :=
  let value := trim (input this) in
  match value with
  | [] => (true, "Enter a value first"%string)
  | _ :: _ =>
      if len value >? 15
      then (true, "Value too long (max 15 characters)"%string)
      else if Stack.size (stack this) >=? Stack.maxSize (stack this)
      then (true, "Stack is full"%string)
      else (false, "Push to stack"%string)
  end.

Definition pop (w : page) (this : t) : outcome unit * t * list event :=
  if Stack.isEmpty (stack this) then
    let (r, evs) := notify w "stack.empty" NoText VNull in (r, this, evs)
  else
    match Stack.pop (stack this) with
    | (Return value, stack') =>
        let (r, evs) := notify w "stack.popped" NoText value in
        (r, {| stack := stack'; input := input this |}, evs)
    | (Throw e, stack') =>
        (Throw e, {| stack := stack'; input := input this |}, [])
    end.

Definition peek (w : page) (this : t) : outcome unit * t * list event :=
  if Stack.isEmpty (stack this) then
    let (r, evs) := notify w "stack.empty" NoText VNull in (r, this, evs)
  else
    match Stack.peek (stack this) with
    | (Return value, stack') =>
        let (r, evs) := notify w "stack.peeked" NoText value in
        (r, {| stack := stack'; input := input this |}, evs)
    | (Throw e, stack') =>
        (Throw e, {| stack := stack'; input := input this |}, [])
    end.

Definition clear (w : page) (this : t) : outcome unit * t * list event :=
  if Stack.isEmpty (stack this) then
    let (r, evs) := notify w "info" (Lit "Stack is already empty") VNull in
    (r, this, evs)
  else
    match Stack.clear (stack this) with
    | (Return _, stack') =>
        let (r, evs) := notify w "stack.cleared" NoText VNull in
        (r, {| stack := stack'; input := input this |}, evs)
    | (Throw e, stack') =>
        (Throw e, {| stack := stack'; input := input this |}, [])
    end.

(** The object [getState()] returns. *)
Record state : Type := mkState {
  state_items : list value;
  state_size : Z;
  state_isEmpty : bool;
  state_top : value
}.

Definition getState (this : t) : state :=
  {| state_items := Stack.toArray (stack this);
     state_size := Stack.size (stack this);
     state_isEmpty := Stack.isEmpty (stack this);
     state_top := match fst (Stack.peek (stack this)) with
                  | Return v => v
                  | Throw _ => VUndefined
                  end |}.

(** [loadState(items)]: [this.clear()], then
    [items.forEach(item => this.stack.push(item))]; a throw of [push]
    leaves the method at once. *)
Definition loadState (w : page) (arr : list value) (this : t)
  : outcome unit * t * list event :=
  match clear w this with
  | (Return _, this1, evs) =>
      let (r, stack') := Stack.push_all arr (stack this1) in
      (r, {| stack := stack'; input := input this1 |}, evs)
  | (Throw e, this1, evs) => (Throw e, this1, evs)
  end.

(** What the user does on the page: typing into the input, and the
    four buttons (Enter in the input is [DoPush] as well). *)
Inductive command : Type :=
| TypeText (text : jsstring)
| DoPush
| DoPop
| DoPeek
| DoClear.

Definition step (w : page) (c : command) (this : t) : t :=
  match c with
  | TypeText text => {| stack := stack this; input := text |}
  | DoPush => snd (fst (push w this))
  | DoPop => snd (fst (pop w this))
  | DoPeek => snd (fst (peek w this))
  | DoClear => snd (fst (clear w this))
  end.

Definition steps (w : page) (cs : list command) (this : t) : t :=
  fold_left (fun d c => step w c d) cs this.

(** [new StackDemo()] on a page whose input holds [text]. *)
Definition new (text : jsstring) : t :=
  {| stack := Stack.new; input := text |}.

End StackDemo.

(** ** class QueueDemo *)

Module QueueDemo.

(** The controller's queue and the text of its input element, [None]
    when the page has no such element.  The callbacks are the empty
    functions the constructor installs. *)
Record t : Type := mk {
  queue : Queue.t;
  inputField : option jsstring
}.

Definition showNotification (w : page) (message : text) (type : string)
  : list event :=
  match w with
  | Some n =>
      if has (methods n) type then [NotifyCall type message]
      else [ConsoleLog type; ToastCreated type message]
  | None => [ConsoleLog type; ToastCreated type message]
  end.

(** [enqueue(value)]: every throw is caught inside.  After a
    successful [Queue.enqueue] the source calls [updateDisplay()], which
    writes the queued values into [innerHTML]: this is a write to the
    page only as long as no value holds a ['<'], which is what the
    model covers. *)
Definition enqueue (w : page) (v : value) (this : t) : t * list event :=
  match Queue.enqueue v (queue this) with
  | (Return _, queue') =>
      ({| queue := queue'; inputField := inputField this |},
       showNotification w (Tpl "Đã thêm: " v) "success")
  | (Throw e, queue') =>
      ({| queue := queue'; inputField := inputField this |},
       showNotification w (ErrorMessage e) "error")
  end.

(** The click listener of the Enqueue button. *)
Definition onEnqueueClick (w : page) (this : t) : t * list event :=
  match inputField this with
  | Some raw =>
      match trim raw with
      | [] => (this, showNotification w (Lit "Vui lòng nhập giá trị!") "warning")
      | (_ :: _) as value =>
          let (this', evs) := enqueue w (VStr value) this in
          ({| queue := queue this'; inputField := Some [] |}, evs)
      end
  | None => (this, showNotification w (Lit "Vui lòng nhập giá trị!") "warning")
  end.

(** *** The other handlers *)

Definition dequeue (w : page) (this : t) : t * list event :=
  if Queue.isEmpty (queue this) then
    (this, showNotification w (Lit "Queue đang trống!") "warning")
  else
    match Queue.dequeue (queue this) with
    | (Return value, queue') =>
        ({| queue := queue'; inputField := inputField this |},
         showNotification w (Tpl "Đã lấy ra: " value) "success")
    | (Throw e, queue') =>
        ({| queue := queue'; inputField := inputField this |},
         showNotification w (ErrorMessage e) "error")
    end.

Definition viewFront (w : page) (this : t) : t * list event :=
  match Queue.front (queue this) with
  | (Return front, queue') =>
      ({| queue := queue'; inputField := inputField this |},
       match front with
       | VNull => showNotification w (Lit "Queue đang trống!") "warning"
       | _ => showNotification w (Tpl "Phần tử đầu: " front) "info"
       end)
  | (Throw e, queue') =>
      ({| queue := queue'; inputField := inputField this |},
       showNotification w (ErrorMessage e) "error")
  end.

Definition clear (w : page) (this : t) : t * list event :=
  match Queue.clear (queue this) with
  | (Return _, queue') =>
      ({| queue := queue'; inputField := inputField this |},
       showNotification w (Lit "Đã xóa toàn bộ queue") "info")
  | (Throw e, queue') =>
      ({| queue := queue'; inputField := inputField this |},
       showNotification w (ErrorMessage e) "error")
  end.

(** What the user does on the page: typing into the input (when the
    page has one) and the four buttons. *)
Inductive command : Type :=
| TypeText (text : jsstring)
| ClickEnqueue
| ClickDequeue
| ClickFront
| ClickClear.

Definition step (w : page) (c : command) (this : t) : t :=
  match c with
  | TypeText text =>
      {| queue := queue this;
         inputField := match inputField this with
                       | Some _ => Some text
                       | None => None
                       end |}
  | ClickEnqueue => fst (onEnqueueClick w this)
  | ClickDequeue => fst (dequeue w this)
  | ClickFront => fst (viewFront w this)
  | ClickClear => fst (clear w this)
  end.

Definition steps (w : page) (cs : list command) (this : t) : t :=
  fold_left (fun d c => step w c d) cs this.

(** A text without ['<'] (code unit 60): written into [innerHTML] it
    stays text.  A command, or an input field, that brings no other
    text. *)
Definition plain (text : jsstring) : Prop := ~ In 60%N text.

Definition plain_command (c : command) : Prop :=
  match c with
  | TypeText text => plain text
  | _ => True
  end.

Definition plain_field (field : option jsstring) : Prop :=
  match field with
  | Some text => plain text
  | None => True
  end.

Definition plain_value (v : value) : Prop :=
  exists s, v = VStr s /\ plain s.

(** [new QueueDemo()], [field] being the text of the input element. *)
Definition new (field : option jsstring) : t :=
  {| queue := Queue.new; inputField := field |}.

End QueueDemo.

(** ** Predicates on contents *)

(** No element is [undefined], [null] or ['']. *)
Definition holds_values (arr : list value) : Prop :=
  Forall (fun v => isEmptyValue v = false) arr.

(** A text a controller has taken from its input: a string that is not
    empty and has no white space at either end. *)
Definition entered_text (v : value) : Prop :=
  exists s, v = VStr s /\ s <> [] /\ trim s = s.

(** Such a text of at most 15 code units. *)
Definition short_text (v : value) : Prop :=
  exists s, v = VStr s /\ s <> [] /\ trim s = s /\ len s <= 15.

(** ** States used as examples *)

(** A stack of capacity 1 holding ["A"], and the same contents under
    capacity 2. *)
Definition full_of_one : Stack.t :=
  {| Stack.items := [VStr (str "A")]; Stack.maxSize := 1 |}.

Definition room_for_one : Stack.t :=
  {| Stack.items := [VStr (str "A")]; Stack.maxSize := 2 |}.

(** The default stack after ["A"], ["B"], ["C"] were pushed. *)
Definition stack_ABC : Stack.t :=
  {| Stack.items := [VStr (str "A"); VStr (str "B"); VStr (str "C")];
     Stack.maxSize := 10 |}.

(** A new stack after [push('A')], [push('B')], [push('C')],
    [setMaxSize(2.5)] and [push('D')]; and after [setMaxSize(NaN)] and
    [push('A')]. *)
Definition overfilled : StackN.t :=
  StackN.calls
    [StackN.Push (VStr (str "A")); StackN.Push (VStr (str "B"));
     StackN.Push (VStr (str "C")); StackN.SetMaxSize (Finite (5 # 2));
     StackN.Push (VStr (str "D"))]
    StackN.new.

Definition unbounded : StackN.t :=
  StackN.calls [StackN.SetMaxSize NaN; StackN.Push (VStr (str "A"))]
    StackN.new.

(** A stack controller on a new stack whose input holds three spaces. *)
Definition blank_demo : StackDemo.t :=
  {| StackDemo.stack := Stack.new; StackDemo.input := str "   " |}.

(** The same controller with sixteen letters in its input, and with one
    letter followed by fifteen spaces. *)
Definition long_demo : StackDemo.t :=
  {| StackDemo.stack := Stack.new;
     StackDemo.input := str "aaaaaaaaaaaaaaaa" |}.

Definition padded_demo : StackDemo.t :=
  {| StackDemo.stack := Stack.new;
     StackDemo.input := str "a               " |}.

(** A queue controller on a new queue whose input holds three spaces. *)
Definition blank_queue_demo : QueueDemo.t :=
  {| QueueDemo.queue := Queue.new; QueueDemo.inputField := Some (str "   ") |}.

(** * Properties *)

(** ** Arrays *)

Lemma len_nonneg (A : Type) (arr : list A) : 0 <= len arr.
Proof. unfold len. lia. Qed.

Lemma len_app (A : Type) (l1 l2 : list A) : len (l1 ++ l2) = len l1 + len l2.
Proof. unfold len. rewrite length_app. lia. Qed.

Lemma len_snoc (A : Type) (l : list A) (x : A) : len (l ++ [x]) = len l + 1.
Proof. rewrite len_app. reflexivity. Qed.

Lemma Array_pop_snoc (l : list value) (x : value) :
  Array_pop (l ++ [x]) = (x, l).
Proof.
  unfold Array_pop.
  destruct (l ++ [x]) eqn:E.
  - destruct l; discriminate.
  - rewrite <- E, last_last, removelast_last. reflexivity.
Qed.

Lemma Array_get_last (l : list value) (x : value) :
  Array_get (l ++ [x]) (len (l ++ [x]) - 1) = x.
Proof.
  unfold Array_get. rewrite len_snoc.
  pose proof (len_nonneg l) as H.
  destruct (Z.ltb_spec (len l + 1 - 1) 0) as [Hneg | _]; [lia |].
  replace (Z.to_nat (len l + 1 - 1)) with (length l) by (unfold len; lia).
  rewrite app_nth2, Nat.sub_diag by lia. reflexivity.
Qed.

(** Every array is empty or ends in a last element. *)
Lemma snoc_cases (l : list value) :
  l = [] \/ exists l' x, l = l' ++ [x].
Proof.
  destruct l as [| a l] using rev_ind; [left | right]; eauto.
Qed.

Ltac by_last l :=
  let l' := fresh "l" in
  let x := fresh "x" in
  let E := fresh "E" in
  destruct (snoc_cases l) as [E | (l' & x & E)]; rewrite E in *.

(** ** The stack *)

Lemma Stack_push_ok (s : Stack.t) (v : value) :
  len (Stack.items s) < Stack.maxSize s ->
  isEmptyValue v = false ->
  Stack.push v s =
    (Return true,
     {| Stack.items := Stack.items s ++ [v];
        Stack.maxSize := Stack.maxSize s |}).
Proof.
  intros Hroom Hv. unfold Stack.push.
  rewrite Z.geb_leb.
  destruct (Z.leb_spec (Stack.maxSize s) (len (Stack.items s))); [lia |].
  rewrite Hv. reflexivity.
Qed.

Lemma Stack_pop_snoc (l : list value) (x : value) (m : Z) :
  Stack.pop {| Stack.items := l ++ [x]; Stack.maxSize := m |} =
    (Return x, {| Stack.items := l; Stack.maxSize := m |}).
Proof.
  unfold Stack.pop, Stack.isEmpty. simpl.
  rewrite len_snoc. pose proof (len_nonneg l).
  destruct (Z.eqb_spec (len l + 1) 0); [lia |].
  rewrite Array_pop_snoc. reflexivity.
Qed.

Lemma Stack_push_all_ok (vs : list value) : forall s : Stack.t,
  Forall (fun v => isEmptyValue v = false) vs ->
  len (Stack.items s) + len vs <= Stack.maxSize s ->
  Stack.push_all vs s =
    (Return tt,
     {| Stack.items := Stack.items s ++ vs;
        Stack.maxSize := Stack.maxSize s |}).
Proof.
  induction vs as [| v vs IH]; intros s Hvs Hcap.
  - simpl. rewrite app_nil_r. destruct s; reflexivity.
  - inversion Hvs as [| ? ? Hv Hrest]; subst.
    assert (Hlen : len (v :: vs) = 1 + len vs)
      by (unfold len; simpl length; lia).
    rewrite Hlen in Hcap. pose proof (len_nonneg vs).
    simpl. rewrite Stack_push_ok; [| lia | assumption].
    rewrite IH; simpl; trivial.
    + rewrite <- app_assoc. reflexivity.
    + rewrite len_snoc. lia.
Qed.

Lemma Stack_pop_n_app (vs : list value) : forall (l : list value) (m : Z),
  Stack.pop_n (length vs) {| Stack.items := l ++ vs; Stack.maxSize := m |} =
    (Return (rev vs), {| Stack.items := l; Stack.maxSize := m |}).
Proof.
  induction vs as [| x vs IH] using rev_ind; intros l m.
  - simpl. rewrite app_nil_r. reflexivity.
  - rewrite length_app, Nat.add_1_r, rev_unit, app_assoc. simpl.
    rewrite Stack_pop_snoc, IH. reflexivity.
Qed.

(** C1. LIFO law: when the values [vs] are pushed one after the other
    onto a stack with room for all of them (each value being one
    [push] takes, that is not [undefined], [null] or ['']), every push
    succeeds, and the next [length vs] calls of [pop()] return [vs] in
    reverse order and leave the stack as it was before the pushes. *)
Theorem Stack_LIFO (s : Stack.t) (vs : list value) :
  Forall (fun v => isEmptyValue v = false) vs ->
  len (Stack.items s) + len vs <= Stack.maxSize s ->
  exists s',
    Stack.push_all vs s = (Return tt, s') /\
    Stack.pop_n (length vs) s' = (Return (rev vs), s).
Proof.
  intros Hvs Hcap. eexists. split.
  - apply Stack_push_all_ok; assumption.
  - rewrite Stack_pop_n_app. destruct s; reflexivity.
Qed.

Lemma Stack_LIFO_witness :
  exists s',
    Stack.push_all [VStr (str "A"); VStr (str "B"); VStr (str "C")]
      {| Stack.items := []; Stack.maxSize := 3 |} = (Return tt, s') /\
    Stack.pop_n 3 s' =
      (Return [VStr (str "C"); VStr (str "B"); VStr (str "A")],
       {| Stack.items := []; Stack.maxSize := 3 |}).
Proof.
  apply (@Stack_LIFO {| Stack.items := []; Stack.maxSize := 3 |}
           [VStr (str "A"); VStr (str "B"); VStr (str "C")]).
  - repeat constructor.
  - vm_compute. discriminate.
Defined.

(** ** The queue *)

Lemma Queue_enqueue_ok (q : Queue.t) (v : value) :
  len (Queue.items q) < Queue.maxSize q ->
  Queue.enqueue v q =
    (Return true,
     {| Queue.items := Queue.items q ++ [v];
        Queue.maxSize := Queue.maxSize q |}).
Proof.
  intros Hroom. unfold Queue.enqueue, Queue.size.
  rewrite Z.geb_leb.
  destruct (Z.leb_spec (Queue.maxSize q) (len (Queue.items q))); [lia |].
  reflexivity.
Qed.

Lemma Queue_enqueue_all_ok (vs : list value) : forall q : Queue.t,
  len (Queue.items q) + len vs <= Queue.maxSize q ->
  Queue.enqueue_all vs q =
    (Return tt,
     {| Queue.items := Queue.items q ++ vs;
        Queue.maxSize := Queue.maxSize q |}).
Proof.
  induction vs as [| v vs IH]; intros q Hcap.
  - simpl. rewrite app_nil_r. destruct q; reflexivity.
  - assert (Hlen : len (v :: vs) = 1 + len vs)
      by (unfold len; simpl length; lia).
    rewrite Hlen in Hcap. pose proof (len_nonneg vs).
    simpl. rewrite Queue_enqueue_ok by lia.
    rewrite IH; simpl.
    + rewrite <- app_assoc. reflexivity.
    + rewrite len_snoc. lia.
Qed.

Lemma Queue_dequeue_cons (x : value) (l : list value) (m : Z) :
  Queue.dequeue {| Queue.items := x :: l; Queue.maxSize := m |} =
    (Return x, {| Queue.items := l; Queue.maxSize := m |}).
Proof. reflexivity. Qed.

Lemma Queue_dequeue_n_all (l : list value) : forall m : Z,
  Queue.dequeue_n (length l) {| Queue.items := l; Queue.maxSize := m |} =
    (Return l, {| Queue.items := []; Queue.maxSize := m |}).
Proof.
  induction l as [| x l IH]; intros m; [reflexivity |].
  cbn [length Queue.dequeue_n]. rewrite Queue_dequeue_cons, IH. reflexivity.
Qed.

(** C2. FIFO law: when the values [vs] are enqueued one after the other
    into a queue with room for all of them, every enqueue succeeds, and
    dequeuing the queue out returns what it held before, oldest first,
    followed by [vs] in the order of insertion.  On a queue that was
    empty the dequeues return exactly [vs]. *)
Theorem Queue_FIFO (q : Queue.t) (vs : list value) :
  len (Queue.items q) + len vs <= Queue.maxSize q ->
  exists q',
    Queue.enqueue_all vs q = (Return tt, q') /\
    Queue.dequeue_n (length (Queue.items q) + length vs) q' =
      (Return (Queue.items q ++ vs),
       {| Queue.items := []; Queue.maxSize := Queue.maxSize q |}).
Proof.
  intros Hcap. eexists. split.
  - apply Queue_enqueue_all_ok; assumption.
  - rewrite <- length_app. apply Queue_dequeue_n_all.
Qed.

Lemma Queue_FIFO_witness :
  exists q',
    Queue.enqueue_all [VStr (str "X"); VStr (str "Y"); VStr (str "Z")]
      {| Queue.items := []; Queue.maxSize := 3 |} = (Return tt, q') /\
    Queue.dequeue_n 3 q' =
      (Return [VStr (str "X"); VStr (str "Y"); VStr (str "Z")],
       {| Queue.items := []; Queue.maxSize := 3 |}).
Proof.
  apply (@Queue_FIFO {| Queue.items := []; Queue.maxSize := 3 |}
           [VStr (str "X"); VStr (str "Y"); VStr (str "Z")]).
  vm_compute. discriminate.
Defined.

(** ** Removal from an empty container *)

(** C3. On an empty stack [pop()] throws the underflow error; on an
    empty queue [dequeue()] throws nothing, returns [null] and leaves
    the queue as it was. *)
Theorem empty_removal_asymmetry (s : Stack.t) (q : Queue.t) :
  Stack.isEmpty s = true ->
  Queue.isEmpty q = true ->
  Stack.pop s = (Throw StackUnderflow, s) /\
  Queue.dequeue q = (Return VNull, q).
Proof.
  intros Hs Hq. unfold Stack.pop, Queue.dequeue.
  rewrite Hs, Hq. split; reflexivity.
Qed.

Lemma empty_removal_asymmetry_witness :
  Stack.pop Stack.new = (Throw StackUnderflow, Stack.new) /\
  Queue.dequeue Queue.new = (Return VNull, Queue.new).
Proof.
  apply (@empty_removal_asymmetry Stack.new Queue.new); reflexivity.
Defined.

(** ** The contract of [push] *)

(** C4. On a stack that is not over its capacity: at [size == capacity]
    [push] throws the overflow error and leaves the stack as it was;
    below capacity, a push of [undefined], [null] or [''] throws the
    invalid-element error and leaves the stack as it was; any other
    push returns [true] and appends the element as the new top. *)
Theorem Stack_push_contract (s : Stack.t) (v : value) :
  len (Stack.items s) <= Stack.maxSize s ->
  (Stack.size s = Stack.maxSize s ->
     Stack.push v s = (Throw StackOverflow, s)) /\
  (Stack.size s <> Stack.maxSize s -> isEmptyValue v = true ->
     Stack.push v s = (Throw InvalidElement, s)) /\
  (Stack.size s <> Stack.maxSize s -> isEmptyValue v = false ->
     exists s',
       Stack.push v s = (Return true, s') /\
       Stack.items s' = Stack.items s ++ [v] /\
       Stack.maxSize s' = Stack.maxSize s /\
       Stack.peek s' = (Return v, s')).
Proof.
  intros Hinv. unfold Stack.size. repeat split.
  - intros Hfull. unfold Stack.push. rewrite Z.geb_leb.
    destruct (Z.leb_spec (Stack.maxSize s) (len (Stack.items s))); [| lia].
    reflexivity.
  - intros Hroom Hv. unfold Stack.push. rewrite Z.geb_leb.
    destruct (Z.leb_spec (Stack.maxSize s) (len (Stack.items s))); [lia |].
    rewrite Hv. reflexivity.
  - intros Hroom Hv. eexists. split; [apply Stack_push_ok; [lia | exact Hv] |].
    simpl. repeat split.
    unfold Stack.peek, Stack.isEmpty. simpl.
    rewrite Array_get_last, len_snoc.
    pose proof (len_nonneg (Stack.items s)).
    destruct (Z.eqb_spec (len (Stack.items s) + 1) 0); [lia | reflexivity].
Qed.

Lemma Stack_push_contract_witness :
  Stack.push (VStr (str "B")) full_of_one = (Throw StackOverflow, full_of_one) /\
  Stack.push (VStr []) room_for_one = (Throw InvalidElement, room_for_one) /\
  exists s',
    Stack.push (VStr (str "B")) room_for_one = (Return true, s') /\
    Stack.items s' = [VStr (str "A"); VStr (str "B")] /\
    Stack.maxSize s' = 2 /\
    Stack.peek s' = (Return (VStr (str "B")), s').
Proof.
  split; [| split].
  - apply (@Stack_push_contract full_of_one (VStr (str "B"))); vm_compute;
      [discriminate | reflexivity].
  - apply (@Stack_push_contract room_for_one (VStr [])); vm_compute;
      [discriminate | discriminate | reflexivity].
  - apply (@Stack_push_contract room_for_one (VStr (str "B"))); vm_compute;
      [discriminate | discriminate | reflexivity].
Defined.

Lemma Array_get_top_app (dropped kept : list value) :
  kept <> [] ->
  Array_get (dropped ++ kept) (len (dropped ++ kept) - 1) =
    Array_get kept (len kept - 1).
Proof.
  intros Hkept. by_last kept; [contradiction |].
  rewrite app_assoc, !Array_get_last. reflexivity.
Qed.

(** ** The capacity invariant *)

Lemma Array_slice_last (arr : list value) (n : Z) :
  1 <= n < len arr ->
  Array_slice arr (- n) = skipn (length arr - Z.to_nat n) arr.
Proof.
  intros Hn. unfold Array_slice.
  destruct (Z.ltb_spec (- n) 0); [| lia].
  f_equal. unfold len in *. lia.
Qed.

Lemma len_slice_last (arr : list value) (n : Z) :
  1 <= n < len arr -> len (Array_slice arr (- n)) = n.
Proof.
  intros Hn. rewrite Array_slice_last by assumption.
  unfold len in *. rewrite length_skipn. lia.
Qed.

Lemma Stack_exec_inv (o : Stack.op) (s : Stack.t) :
  Stack.inv s -> Stack.inv (Stack.exec o s).
Proof.
  unfold Stack.inv. intros Hinv.
  destruct o as [v | | | | n]; simpl.
  - unfold Stack.push. rewrite Z.geb_leb.
    destruct (Z.leb_spec (Stack.maxSize s) (len (Stack.items s)));
      [assumption |].
    destruct (isEmptyValue v); simpl; [assumption |].
    unfold Array_push. rewrite len_snoc. lia.
  - unfold Stack.pop, Stack.isEmpty.
    destruct (Z.eqb_spec (len (Stack.items s)) 0); [assumption |].
    by_last (Stack.items s); [contradiction |].
    rewrite len_snoc in Hinv. rewrite Array_pop_snoc. simpl.
    pose proof (len_nonneg l). lia.
  - unfold Stack.peek. destruct (Stack.isEmpty s); assumption.
  - unfold len. simpl. lia.
  - unfold Stack.setMaxSize.
    destruct (Z.ltb_spec n 1); simpl; [assumption |].
    rewrite Z.gtb_ltb.
    destruct (Z.ltb_spec n (len (Stack.items s))).
    + rewrite len_slice_last by lia. lia.
    + lia.
Qed.

Lemma Queue_exec_inv (o : Queue.op) (q : Queue.t) :
  Queue.inv q -> Queue.inv (Queue.exec o q).
Proof.
  unfold Queue.inv. intros Hinv.
  destruct o as [v | | | | ]; simpl.
  - unfold Queue.enqueue, Queue.size. rewrite Z.geb_leb.
    destruct (Z.leb_spec (Queue.maxSize q) (len (Queue.items q)));
      [assumption |].
    simpl. unfold Array_push. rewrite len_snoc. lia.
  - unfold Queue.dequeue, Queue.isEmpty.
    destruct (Z.eqb_spec (len (Queue.items q)) 0); [assumption |].
    destruct (Queue.items q) as [| x l]; [contradiction |].
    assert (Hlen : len (x :: l) = 1 + len l)
      by (unfold len; simpl length; lia).
    rewrite Hlen in Hinv. simpl. pose proof (len_nonneg l). lia.
  - unfold Queue.front. destruct (Queue.isEmpty q); assumption.
  - unfold Queue.rear. destruct (Queue.isEmpty q); assumption.
  - unfold len. simpl. lia.
Qed.

Lemma Stack_run_inv (ops : list Stack.op) : forall s : Stack.t,
  Stack.inv s -> Stack.inv (Stack.run ops s).
Proof.
  induction ops as [| o ops IH]; intros s Hinv; [assumption |].
  apply IH, Stack_exec_inv, Hinv.
Qed.

Lemma Queue_run_inv (ops : list Queue.op) : forall q : Queue.t,
  Queue.inv q -> Queue.inv (Queue.run ops q).
Proof.
  induction ops as [| o ops IH]; intros q Hinv; [assumption |].
  apply IH, Queue_exec_inv, Hinv.
Qed.

Lemma Stack_exec_maxSize_pos (o : Stack.op) (s : Stack.t) :
  0 < Stack.maxSize s -> 0 < Stack.maxSize (Stack.exec o s).
Proof.
  intros Hpos. destruct o as [v | | | | n]; simpl.
  - unfold Stack.push.
    destruct (_ >=? _); [| destruct (isEmptyValue v)]; assumption.
  - unfold Stack.pop.
    destruct (Stack.isEmpty s); [| destruct (Array_pop _)]; assumption.
  - unfold Stack.peek. destruct (Stack.isEmpty s); assumption.
  - assumption.
  - unfold Stack.setMaxSize.
    destruct (Z.ltb_spec n 1); simpl; [assumption | lia].
Qed.

(** With integer sizes, the stack's own integrity check, [isValid()],
    answers [true] in every state reached from a new stack. *)
Lemma Stack_run_isValid (ops : list Stack.op) :
  Stack.isValid (Stack.run ops Stack.new) = true.
Proof.
  assert (H : forall s, Stack.inv s /\ 0 < Stack.maxSize s ->
                        Stack.inv (Stack.run ops s) /\
                        0 < Stack.maxSize (Stack.run ops s)).
  { induction ops as [| o ops IH]; intros s [Hinv Hpos]; [tauto |].
    apply IH. split; [apply Stack_exec_inv | apply Stack_exec_maxSize_pos];
      assumption. }
  destruct (H Stack.new) as [[_ Hle] Hpos];
    [unfold Stack.inv, len; simpl; lia |].
  unfold Stack.isValid. apply andb_true_iff. split.
  - apply Z.leb_le, Hle.
  - rewrite Z.gtb_ltb. apply Z.ltb_lt, Hpos.
Qed.

(** As long as every size given to [setMaxSize] is an integer:
    whatever calls of push, pop, peek, clear and setMaxSize are made on
    a new stack, and whatever calls of enqueue, dequeue, front, rear
    and clear on a new queue, the state reached satisfies
    [0 <= len(items) <= maxSize]. *)
Lemma capacity_invariant (sops : list Stack.op) (qops : list Queue.op) :
  Stack.inv (Stack.run sops Stack.new) /\
  Queue.inv (Queue.run qops Queue.new).
Proof.
  split.
  - apply Stack_run_inv. unfold Stack.inv, len. simpl. lia.
  - apply Queue_run_inv. unfold Queue.inv, len. simpl. lia.
Qed.

(** *** Capacities that are not integers *)

Lemma number_le_int (a b : Z) : number_le (of_int a) (of_int b) = (a <=? b).
Proof.
  unfold number_le, of_int, Qle_bool. simpl. rewrite !Z.mul_1_r. reflexivity.
Qed.

Lemma number_lt_int (a b : Z) : number_lt (of_int a) (of_int b) = (a <? b).
Proof.
  unfold number_lt, of_int, Qle_bool. simpl. rewrite !Z.mul_1_r.
  symmetry. apply Z.ltb_antisym.
Qed.

Lemma Array_slice_number_int (arr : list value) (n : Z) :
  Array_slice_number arr (number_neg (of_int n)) = Array_slice arr (- n).
Proof.
  unfold Array_slice_number, number_neg, of_int. simpl.
  rewrite Z.quot_1_r. reflexivity.
Qed.

(** On a capacity that is an integer, and with integer sizes, the
    methods of [StackN] do what those of [Stack] do. *)
Lemma StackN_of_Stack (s : Stack.t) :
  (forall v,
     StackN.push v (StackN.of_Stack s) =
       (fst (Stack.push v s), StackN.of_Stack (snd (Stack.push v s)))) /\
  StackN.pop (StackN.of_Stack s) =
    (fst (Stack.pop s), StackN.of_Stack (snd (Stack.pop s))) /\
  StackN.peek (StackN.of_Stack s) =
    (fst (Stack.peek s), StackN.of_Stack (snd (Stack.peek s))) /\
  StackN.clear (StackN.of_Stack s) =
    (fst (Stack.clear s), StackN.of_Stack (snd (Stack.clear s))) /\
  (forall n,
     StackN.setMaxSize (of_int n) (StackN.of_Stack s) =
       (fst (Stack.setMaxSize n s),
        StackN.of_Stack (snd (Stack.setMaxSize n s)))) /\
  StackN.reverse (StackN.of_Stack s) =
    (fst (Stack.reverse s), StackN.of_Stack (snd (Stack.reverse s))) /\
  StackN.isValid (StackN.of_Stack s) = Stack.isValid s.
Proof.
  destruct s as [arr m]. repeat split.
  - intros v. unfold StackN.push, Stack.push, StackN.of_Stack, number_ge.
    cbn [StackN.items StackN.maxSize Stack.items Stack.maxSize].
    rewrite number_le_int, Z.geb_leb.
    destruct (m <=? len arr); [reflexivity |].
    destruct (isEmptyValue v); reflexivity.
  - unfold StackN.pop, Stack.pop, StackN.isEmpty, Stack.isEmpty,
      StackN.of_Stack.
    cbn [StackN.items StackN.maxSize Stack.items Stack.maxSize].
    destruct (len arr =? 0); [reflexivity |].
    destruct (Array_pop arr). reflexivity.
  - unfold StackN.peek, Stack.peek, StackN.isEmpty, Stack.isEmpty,
      StackN.of_Stack.
    cbn [StackN.items StackN.maxSize Stack.items Stack.maxSize].
    destruct (len arr =? 0); reflexivity.
  - intros n.
    unfold StackN.setMaxSize, Stack.setMaxSize, StackN.of_Stack, number_gt.
    cbn [StackN.items StackN.maxSize Stack.items Stack.maxSize].
    rewrite !number_lt_int, Z.gtb_ltb, Array_slice_number_int.
    destruct (n <? 1); reflexivity.
  - unfold StackN.isValid, Stack.isValid, StackN.of_Stack, number_gt.
    cbn [StackN.items StackN.maxSize Stack.items Stack.maxSize].
    rewrite number_le_int, number_lt_int, Z.gtb_ltb. reflexivity.
Qed.

Lemma StackN_calls_of_Stack (ms : list Stack.method) : forall s : Stack.t,
  StackN.calls (map StackN.of_method ms) (StackN.of_Stack s) =
    StackN.of_Stack (Stack.calls ms s).
Proof.
  induction ms as [| m ms IH]; intros s; [reflexivity |].
  cbn [map StackN.calls Stack.calls fold_left].
  fold (StackN.calls (map StackN.of_method ms)). fold (Stack.calls ms).
  rewrite <- IH. f_equal.
  destruct (StackN_of_Stack s) as (Hpush & Hpop & Hpeek & Hclear & Hset & Hrev & _).
  destruct m as [[v | | | | n] |]; cbn [StackN.of_method StackN.call
                                         Stack.call Stack.exec].
  - rewrite Hpush. reflexivity.
  - rewrite Hpop. reflexivity.
  - rewrite Hpeek. reflexivity.
  - rewrite Hclear. reflexivity.
  - rewrite Hset. reflexivity.
  - rewrite Hrev. reflexivity.
Qed.

(** C5 (at the failing input). The capacity invariant does not
    survive a size that is not an integer.  After [push('A')],
    [push('B')], [push('C')], [setMaxSize(2.5)] keeps the two elements
    on top, and [push('D')] is then let in, since [2 >= 2.5] is false:
    the stack holds three elements under a capacity of 2.5, and its own
    [isValid()] answers [false].  After [setMaxSize(NaN)], which the
    test [size < 1] lets through as well, no push overflows any more
    and [isValid()] is [false] from the first element on. *)
Theorem StackN_capacity_invariant_broken :
  overfilled =
    {| StackN.items := [VStr (str "B"); VStr (str "C"); VStr (str "D")];
       StackN.maxSize := Finite (5 # 2) |} /\
  number_le (of_int (StackN.size overfilled)) (StackN.maxSize overfilled)
    = false /\
  StackN.isValid overfilled = false /\
  unbounded =
    {| StackN.items := [VStr (str "A")]; StackN.maxSize := NaN |} /\
  number_le (of_int (StackN.size unbounded)) (StackN.maxSize unbounded)
    = false /\
  StackN.isValid unbounded = false.
Proof. repeat split. Qed.

(** ** Changing the capacity *)

(** C6. [setMaxSize(size)] with [size < 1] throws the invalid-size
    error and changes nothing.  With [1 <= size] below the current
    occupancy it succeeds, sets the capacity, drops elements from the
    bottom only and keeps exactly the [size] most recent ones; the top
    afterwards is the top before. *)
Theorem Stack_setMaxSize_contract (s : Stack.t) (size : Z) :
  (size < 1 -> Stack.setMaxSize size s = (Throw InvalidSize, s)) /\
  (1 <= size < Stack.size s ->
     exists dropped kept,
       Stack.items s = dropped ++ kept /\
       len kept = size /\
       Stack.setMaxSize size s =
         (Return tt, {| Stack.items := kept; Stack.maxSize := size |}) /\
       fst (Stack.peek {| Stack.items := kept; Stack.maxSize := size |}) =
         fst (Stack.peek s)).
Proof.
  unfold Stack.size. split.
  - intros Hsmall. unfold Stack.setMaxSize.
    destruct (Z.ltb_spec size 1); [reflexivity | lia].
  - intros Hsize.
    set (k := (length (Stack.items s) - Z.to_nat size)%nat).
    exists (firstn k (Stack.items s)), (skipn k (Stack.items s)).
    assert (Hkept : len (skipn k (Stack.items s)) = size)
      by (unfold len, k in *; rewrite length_skipn; lia).
    split; [symmetry; apply firstn_skipn |].
    split; [exact Hkept |].
    split.
    + unfold Stack.setMaxSize.
      destruct (Z.ltb_spec size 1); [lia |].
      rewrite Z.gtb_ltb.
      destruct (Z.ltb_spec size (len (Stack.items s))); [| lia].
      rewrite Array_slice_last by lia. reflexivity.
    + unfold Stack.peek, Stack.isEmpty. simpl.
      destruct (Z.eqb_spec (len (skipn k (Stack.items s))) 0); [lia |].
      destruct (Z.eqb_spec (len (Stack.items s)) 0); [lia |].
      simpl. f_equal.
      pose proof (firstn_skipn k (Stack.items s)) as Hsplit.
      set (kept := skipn k (Stack.items s)) in *.
      set (dropped := firstn k (Stack.items s)) in *.
      rewrite <- Hsplit. symmetry. apply Array_get_top_app.
      intros E. rewrite E in Hkept. unfold len in Hkept. simpl in Hkept. lia.
Qed.

Lemma Stack_setMaxSize_contract_witness :
  Stack.setMaxSize 0 stack_ABC = (Throw InvalidSize, stack_ABC) /\
  exists dropped kept,
    Stack.items stack_ABC = dropped ++ kept /\
    len kept = 2 /\
    Stack.setMaxSize 2 stack_ABC =
      (Return tt, {| Stack.items := kept; Stack.maxSize := 2 |}) /\
    fst (Stack.peek {| Stack.items := kept; Stack.maxSize := 2 |}) =
      fst (Stack.peek stack_ABC).
Proof.
  split.
  - apply (@Stack_setMaxSize_contract stack_ABC 0). lia.
  - apply (@Stack_setMaxSize_contract stack_ABC 2). vm_compute. split; [discriminate | reflexivity].
Defined.

(** ** Clearing *)

(** C7. [clear()] throws nothing and leaves an empty container,
    whatever the state; a second [clear()] leaves that same state; and
    after [clear()] [size()] is 0 and [isEmpty()] is [true].  This
    holds for the stack and for the queue. *)
Theorem clear_contract (s : Stack.t) (q : Queue.t) :
  (exists s',
     Stack.clear s = (Return tt, s') /\
     Stack.items s' = [] /\
     Stack.clear s' = (Return tt, s') /\
     Stack.size s' = 0 /\ Stack.isEmpty s' = true) /\
  (exists q',
     Queue.clear q = (Return tt, q') /\
     Queue.items q' = [] /\
     Queue.clear q' = (Return tt, q') /\
     Queue.size q' = 0 /\ Queue.isEmpty q' = true).
Proof.
  split; eexists; repeat split.
Qed.

(** ** Peeking *)

(** C8. [Stack.peek()], [Queue.front()] and [Queue.rear()] throw
    nothing and leave the container as it was; they return the last
    element of the stack, the first element of the queue and the last
    element of the queue, and [null] when the container is empty. *)
Theorem peeks_nondestructive (s : Stack.t) (q : Queue.t) :
  Stack.peek s = (Return (last (Stack.items s) VNull), s) /\
  Queue.front q = (Return (hd VNull (Queue.items q)), q) /\
  Queue.rear q = (Return (last (Queue.items q) VNull), q).
Proof.
  repeat split.
  - unfold Stack.peek, Stack.isEmpty.
    by_last (Stack.items s); [reflexivity |].
    rewrite Array_get_last, last_last, len_snoc.
    pose proof (len_nonneg l).
    destruct (Z.eqb_spec (len l + 1) 0); [lia | reflexivity].
  - unfold Queue.front, Queue.isEmpty.
    destruct (Queue.items q); reflexivity.
  - unfold Queue.rear, Queue.isEmpty.
    by_last (Queue.items q); [reflexivity |].
    rewrite Array_get_last, last_last, len_snoc.
    pose proof (len_nonneg l).
    destruct (Z.eqb_spec (len l + 1) 0); [lia | reflexivity].
Qed.

(** ** The two scenarios of the specification *)

(** Capacity 3: three pushes succeed, the fourth overflows and leaves
    three elements; the pops return C, B, A; the fourth underflows. *)
Example scenario_stack :
  let s0 := {| Stack.items := []; Stack.maxSize := 3 |} in
  let s3 := snd (Stack.push_all
                   [VStr (str "A"); VStr (str "B"); VStr (str "C")] s0) in
  Stack.push (VStr (str "D")) s3 = (Throw StackOverflow, s3) /\
  Stack.size s3 = 3 /\
  Stack.pop_n 3 s3 =
    (Return [VStr (str "C"); VStr (str "B"); VStr (str "A")], s0) /\
  Stack.pop s0 = (Throw StackUnderflow, s0).
Proof. repeat split. Qed.

(** Capacity 3: three enqueues succeed, the fourth overflows; dequeue
    gives X, then front is Y and rear is Z; the queue empties in order
    and a further dequeue gives [null]. *)
Example scenario_queue :
  let q0 := {| Queue.items := []; Queue.maxSize := 3 |} in
  let q3 := snd (Queue.enqueue_all
                   [VStr (str "X"); VStr (str "Y"); VStr (str "Z")] q0) in
  let q2 := snd (Queue.dequeue q3) in
  Queue.enqueue (VStr (str "W")) q3 = (Throw (QueueOverflow 3), q3) /\
  fst (Queue.dequeue q3) = Return (VStr (str "X")) /\
  fst (Queue.front q2) = Return (VStr (str "Y")) /\
  fst (Queue.rear q2) = Return (VStr (str "Z")) /\
  Queue.dequeue_n 2 q2 = (Return [VStr (str "Y"); VStr (str "Z")], q0) /\
  Queue.dequeue q0 = (Return VNull, q0).
Proof. repeat split. Qed.

(** ** The controllers on a blank input *)

(** On a blank input [StackDemo.push] does nothing but ask [notify] for
    a validation notification: stack and input stay as they were. *)
Lemma StackDemo_push_blank (w : page) (this : StackDemo.t) :
  trim (StackDemo.input this) = [] ->
  StackDemo.push w this =
    (fst (StackDemo.notify w "validation" (Lit "Please enter a value") VNull),
     this,
     snd (StackDemo.notify w "validation" (Lit "Please enter a value") VNull)).
Proof.
  intros Hblank. unfold StackDemo.push. rewrite Hblank.
  destruct (StackDemo.notify _ _ _ _). reflexivity.
Qed.

(** On a blank or missing input the click listener of [QueueDemo] shows
    a warning, through the notification object or a toast of its own,
    and leaves the queue as it was. *)
Lemma QueueDemo_click_blank (w : page) (this : QueueDemo.t) :
  match QueueDemo.inputField this with
  | Some raw => trim raw = []
  | None => True
  end ->
  QueueDemo.onEnqueueClick w this =
    (this,
     QueueDemo.showNotification w (Lit "Vui lòng nhập giá trị!") "warning") /\
  QueueDemo.showNotification w (Lit "Vui lòng nhập giá trị!") "warning" <> [].
Proof.
  intros Hblank. split.
  - unfold QueueDemo.onEnqueueClick.
    destruct (QueueDemo.inputField this); [rewrite Hblank |]; reflexivity.
  - unfold QueueDemo.showNotification.
    destruct w as [n |]; [destruct (has _ _) |]; discriminate.
Qed.

(** With a notification object that has a [validationError] method the
    stack controller's request reaches it. *)
Lemma StackDemo_push_blank_delivered (n : Notifier) (this : StackDemo.t) :
  has (methods n) "validationError" = true ->
  trim (StackDemo.input this) = [] ->
  StackDemo.push (Some n) this =
    (Return tt, this,
     [ValidationErrorCall "Input" (Lit "Please enter a value")]).
Proof.
  intros Hhas Hblank. rewrite StackDemo_push_blank by assumption.
  simpl. rewrite Hhas. reflexivity.
Qed.

(** The notification object of this repository has no such method: the
    request of the stack controller ends in a [TypeError], whatever the
    validation message. *)
Lemma StackDemo_notify_validation_throws (message : text) :
  StackDemo.notify (Some NotificationSystem) "validation" message VNull =
    (Throw (TypeError "window.notifications.validationError"), []).
Proof. reflexivity. Qed.

(** C9 (at the failing input). With the page's [NotificationSystem]
    loaded and three spaces in the input, [StackDemo.push] leaves the
    stack untouched but emits no validation feedback and does not
    return: the call of the missing [validationError] method throws a
    [TypeError].  The queue controller, on the same input, shows its
    warning and leaves the queue untouched. *)
Theorem StackDemo_push_blank_TypeError :
  StackDemo.push (Some NotificationSystem) blank_demo =
    (Throw (TypeError "window.notifications.validationError"),
     blank_demo, []) /\
  QueueDemo.onEnqueueClick (Some NotificationSystem) blank_queue_demo =
    (blank_queue_demo,
     [NotifyCall "warning" (Lit "Vui lòng nhập giá trị!")]).
Proof.
  split.
  - rewrite StackDemo_push_blank by reflexivity.
    rewrite StackDemo_notify_validation_throws. reflexivity.
  - reflexivity.
Qed.

(** ** The length limit of the stack controller *)

(** C10 (as stated, refuted). An input of sixteen characters, one
    letter and fifteen spaces, is not rejected: the controller pushes
    the letter. *)
Lemma StackDemo_push_padded_input_accepted :
  len (StackDemo.input padded_demo) = 16 /\
  StackDemo.push (Some NotificationSystem) padded_demo =
    (Return tt,
     {| StackDemo.stack :=
          {| Stack.items := [VStr (str "a")]; Stack.maxSize := 10 |};
        StackDemo.input := [] |},
     []).
Proof. split; reflexivity. Qed.

(** C10 (amended). When the input, once trimmed, is longer than 15 code
    units, [StackDemo.push] does nothing but ask [notify] for the
    'Value too long' validation notification: the stack and the input
    stay as they were, whatever the stack holds, and no stack
    notification is sent.  [Stack.push] itself takes that value on any
    stack with room. *)
Theorem StackDemo_push_rejects_long (w : page) (this : StackDemo.t) :
  len (trim (StackDemo.input this)) > 15 ->
  StackDemo.push w this =
    (fst (StackDemo.notify w "validation"
            (Lit "Value too long (max 15 characters)") VNull),
     this,
     snd (StackDemo.notify w "validation"
            (Lit "Value too long (max 15 characters)") VNull)) /\
  forall s : Stack.t,
    len (Stack.items s) < Stack.maxSize s ->
    Stack.push (VStr (trim (StackDemo.input this))) s =
      (Return true,
       {| Stack.items := Stack.items s ++ [VStr (trim (StackDemo.input this))];
          Stack.maxSize := Stack.maxSize s |}).
Proof.
  intros Hlong. split.
  - unfold StackDemo.push.
    destruct (trim (StackDemo.input this)) as [| c rest] eqn:E;
      [unfold len in Hlong; simpl in Hlong; lia |].
    rewrite Z.gtb_ltb.
    destruct (Z.ltb_spec 15 (len (c :: rest))); [| lia].
    destruct (StackDemo.notify _ _ _ _). reflexivity.
  - intros s Hroom. apply Stack_push_ok; [assumption |].
    destruct (trim (StackDemo.input this));
      [unfold len in Hlong; simpl in Hlong; lia | reflexivity].
Qed.

Lemma StackDemo_push_rejects_long_witness :
  StackDemo.push None long_demo =
    (Return tt, long_demo, [ConsoleWarn "validation"]) /\
  Stack.push (VStr (str "aaaaaaaaaaaaaaaa")) Stack.new =
    (Return true,
     {| Stack.items := [VStr (str "aaaaaaaaaaaaaaaa")];
        Stack.maxSize := 10 |}).
Proof.
  assert (Hlong : len (trim (StackDemo.input long_demo)) > 15)
    by (vm_compute; reflexivity).
  destruct (@StackDemo_push_rejects_long None long_demo Hlong) as [Hpush Hcontainer].
  split.
  - exact Hpush.
  - apply (Hcontainer Stack.new). vm_compute. reflexivity.
Defined.

(** * Further properties of the two classes *)

(** ** Strict equality *)

Lemma jsstring_eqb_eq (s1 s2 : jsstring) :
  jsstring_eqb s1 s2 = true <-> s1 = s2.
Proof.
  revert s2. induction s1 as [| c1 r1 IH]; intros [| c2 r2]; simpl;
    try (split; [discriminate | discriminate]); [tauto |].
  rewrite andb_true_iff, N.eqb_eq, IH.
  split; [intros [-> ->]; reflexivity | intros E; inversion E; tauto].
Qed.

Lemma strictEq_true (a b : value) : strictEq a b = true -> a = b.
Proof.
  destruct a, b; simpl; try discriminate; try reflexivity.
  - intros H. apply Z.eqb_eq in H. subst. reflexivity.
  - intros H. apply jsstring_eqb_eq in H. subst. reflexivity.
Qed.

Lemma strictEq_refl (a : value) : a <> VNaN -> strictEq a a = true.
Proof.
  destruct a; simpl; intros H; try reflexivity.
  - apply Z.eqb_refl.
  - contradiction.
  - apply jsstring_eqb_eq. reflexivity.
Qed.

Lemma strictEq_NaN (a : value) : strictEq a VNaN = false.
Proof. destruct a; reflexivity. Qed.

Lemma sameValueZero_eq (a b : value) : sameValueZero a b = true <-> a = b.
Proof.
  split.
  - destruct a, b; simpl; try discriminate; try reflexivity;
      intros H; apply (@strictEq_true (VNum _) (VNum _)) in H
      || apply (@strictEq_true (VStr _) (VStr _)) in H; assumption.
  - intros ->. destruct b; simpl; try reflexivity.
    + apply Z.eqb_refl.
    + apply jsstring_eqb_eq. reflexivity.
Qed.

Lemma Array_includes_In (arr : list value) (x : value) :
  Array_includes arr x = true <-> In x arr.
Proof.
  unfold Array_includes. rewrite existsb_exists. split.
  - intros (y & Hin & Heq). apply sameValueZero_eq in Heq. subst. assumption.
  - intros Hin. exists x. split; [assumption | apply sameValueZero_eq; reflexivity].
Qed.

Lemma Array_includes_not_In (arr : list value) (x : value) :
  Array_includes arr x = false <-> ~ In x arr.
Proof.
  rewrite <- Array_includes_In.
  destruct (Array_includes arr x); split; congruence.
Qed.

(** No element of [l] is [===] to [e]; for [e] other than [NaN] this
    says that [e] is not in [l]. *)
Lemma none_strictEq_not_In (e : value) (l : list value) :
  e <> VNaN ->
  (Forall (fun y => strictEq y e = false) l <-> ~ In e l).
Proof.
  intros He. rewrite Forall_forall. split.
  - intros H Hin. apply H in Hin. rewrite strictEq_refl in Hin by assumption.
    discriminate.
  - intros Hnot y Hin. destruct (strictEq y e) eqn:E; [| reflexivity].
    apply strictEq_true in E. subst. contradiction.
Qed.

Lemma strictEq_found (x e : value) :
  strictEq x e = true -> x = e /\ e <> VNaN.
Proof.
  intros H. split; [apply strictEq_true, H |].
  intros ->. rewrite strictEq_NaN in H. discriminate.
Qed.

Lemma Array_get_middle (l1 l2 : list value) (x : value) :
  Array_get (l1 ++ x :: l2) (len l1) = x.
Proof.
  unfold Array_get. pose proof (len_nonneg l1).
  destruct (Z.ltb_spec (len l1) 0); [lia |].
  unfold len. rewrite Nat2Z.id, nth_middle. reflexivity.
Qed.

Lemma len_cons (A : Type) (x : A) (l : list A) : len (x :: l) = 1 + len l.
Proof. unfold len. simpl length. lia. Qed.

(** ** Searching a stack *)

(** What the loop of [search] returns after it has walked down the
    part [l] of the array [l ++ above]. *)
Lemma search_loop_cases (e : value) (l : list value) :
  forall above : list value,
    (Stack.search_loop (l ++ above) e (length l) (len l - 1) = -1 /\
     Forall (fun y => strictEq y e = false) l) \/
    (exists l1 l2,
        l = l1 ++ e :: l2 /\ e <> VNaN /\ ~ In e l2 /\
        Stack.search_loop (l ++ above) e (length l) (len l - 1) =
          len l2 + len above).
Proof.
  induction l as [| x l IH] using rev_ind; intros above.
  - left. split; [reflexivity | constructor].
  - rewrite length_app, Nat.add_1_r, len_snoc. cbn [Stack.search_loop].
    replace (len l + 1 - 1) with (len l) by lia.
    rewrite <- app_assoc. cbn [app]. rewrite Array_get_middle.
    destruct (strictEq x e) eqn:Hx.
    + apply strictEq_found in Hx. destruct Hx as [-> He].
      right. exists l, [].
      split; [reflexivity |]. split; [exact He |]. split; [intros [] |].
      rewrite len_app, len_cons. change (len (@nil value)) with 0. lia.
    + destruct (IH (x :: above))
        as [[Hr Hnone] | (l1 & l2 & El & He & Hnot & Hr)].
      * left. split; [exact Hr |].
        apply Forall_app. split; [exact Hnone | repeat constructor; exact Hx].
      * right. exists l1, (l2 ++ [x]). subst l.
        split; [rewrite <- app_assoc; reflexivity |].
        split; [exact He |].
        split.
        -- rewrite in_app_iff. simpl. intros [H | [H | []]]; [auto |].
           subst x. rewrite strictEq_refl in Hx by exact He. discriminate.
        -- rewrite Hr, len_cons, len_snoc. lia.
Qed.

Lemma Stack_search_cases (e : value) (s : Stack.t) :
  (Stack.search e s = -1 /\
   Forall (fun y => strictEq y e = false) (Stack.items s)) \/
  (exists l1 l2,
      Stack.items s = l1 ++ e :: l2 /\ e <> VNaN /\ ~ In e l2 /\
      Stack.search e s = len l2).
Proof.
  unfold Stack.search.
  destruct (search_loop_cases e (Stack.items s) []) as
    [H | (l1 & l2 & El & He & Hnot & Hr)]; rewrite app_nil_r in *.
  - left. exact H.
  - right. exists l1, l2. repeat split; try assumption.
    rewrite Hr. change (len (@nil value)) with 0. lia.
Qed.

(** X1. For every value other than [NaN], [search] and [contains]
    agree: [search(e)] is -1 exactly when [contains(e)] is false.  For
    [NaN] they differ: [search(NaN)] is always -1, since [===] never
    finds [NaN], while [contains(NaN)] is true as soon as the stack
    holds [NaN].  In every case [search] lies between -1 and
    [size() - 1]. *)
Theorem Stack_search_contains (e : value) (s : Stack.t) :
  (e <> VNaN -> (Stack.search e s = -1 <-> Stack.contains e s = false)) /\
  Stack.search VNaN s = -1 /\
  (Stack.contains VNaN s = true <-> In VNaN (Stack.items s)) /\
  -1 <= Stack.search e s < Stack.size s.
Proof.
  unfold Stack.contains, Stack.size.
  pose proof (len_nonneg (Stack.items s)) as Hlen.
  split; [| split; [| split; [apply Array_includes_In |]]].
  - intros He. rewrite Array_includes_not_In.
    destruct (Stack_search_cases e s)
      as [[Hr Hnone] | (l1 & l2 & El & _ & Hnot & Hr)].
    + apply none_strictEq_not_In in Hnone; [| exact He]. tauto.
    + rewrite Hr, El. pose proof (len_nonneg l2). split; [lia |].
      intros Hnot'. exfalso. apply Hnot'. rewrite in_app_iff. simpl. auto.
  - destruct (Stack_search_cases VNaN s)
      as [[Hr _] | (l1 & l2 & _ & He & _)]; [exact Hr | contradiction].
  - destruct (Stack_search_cases e s)
      as [[Hr _] | (l1 & l2 & El & _ & _ & Hr)]; rewrite Hr; [lia |].
    rewrite El, len_app, len_cons.
    pose proof (len_nonneg l1). pose proof (len_nonneg l2). lia.
Qed.

Lemma Stack_search_contains_witness :
  (Stack.search (VStr (str "A")) stack_ABC = -1 <->
   Stack.contains (VStr (str "A")) stack_ABC = false) /\
  Stack.search VNaN {| Stack.items := [VNaN]; Stack.maxSize := 10 |} = -1 /\
  Stack.contains VNaN {| Stack.items := [VNaN]; Stack.maxSize := 10 |} = true.
Proof.
  split; [| split].
  - apply (@Stack_search_contains (VStr (str "A")) stack_ABC). discriminate.
  - apply (@Stack_search_contains VNaN
             {| Stack.items := [VNaN]; Stack.maxSize := 10 |}).
  - apply (@Stack_search_contains VNaN
             {| Stack.items := [VNaN]; Stack.maxSize := 10 |}).
    simpl. auto.
Defined.

(** X2. [search(e)] counts the pops that uncover [e]: when it is not
    negative, that many calls of [pop()] succeed, none of them returns
    [e], and [peek()] then returns [e]; [at(-1 - search(e))] is [e]. *)
Theorem Stack_search_pops (e : value) (s : Stack.t) :
  0 <= Stack.search e s ->
  exists popped s',
    Stack.pop_n (Z.to_nat (Stack.search e s)) s = (Return popped, s') /\
    ~ In e popped /\
    Stack.peek s' = (Return e, s') /\
    Stack.at_ (-1 - Stack.search e s) s = e.
Proof.
  intros Hfound.
  destruct (Stack_search_cases e s)
    as [[Hr _] | (l1 & l2 & El & _ & Hnot & Hr)]; [lia |].
  rewrite Hr. destruct s as [arr m]. simpl in El. subst arr.
  exists (rev l2), {| Stack.items := l1 ++ [e]; Stack.maxSize := m |}.
  split.
  - unfold len. rewrite Nat2Z.id.
    change (l1 ++ e :: l2) with (l1 ++ [e] ++ l2). rewrite app_assoc.
    apply Stack_pop_n_app.
  - split; [rewrite <- in_rev; exact Hnot |]. split.
    + unfold Stack.peek, Stack.isEmpty. simpl.
      rewrite Array_get_last, len_snoc. pose proof (len_nonneg l1).
      destruct (Z.eqb_spec (len l1 + 1) 0); [lia | reflexivity].
    + unfold Stack.at_. cbn [Stack.items]. pose proof (len_nonneg l2).
      destruct (Z.ltb_spec (-1 - len l2) 0); [| lia].
      rewrite len_app, len_cons.
      replace (len l1 + (1 + len l2) + (-1 - len l2)) with (len l1) by lia.
      apply Array_get_middle.
Qed.

Lemma Stack_search_pops_witness :
  exists popped s',
    Stack.pop_n (Z.to_nat (Stack.search (VStr (str "A")) stack_ABC))
      stack_ABC = (Return popped, s') /\
    ~ In (VStr (str "A")) popped /\
    Stack.peek s' = (Return (VStr (str "A")), s') /\
    Stack.at_ (-1 - Stack.search (VStr (str "A")) stack_ABC) stack_ABC =
      VStr (str "A").
Proof.
  apply (@Stack_search_pops (VStr (str "A")) stack_ABC).
  vm_compute. discriminate.
Defined.

(** ** Searching a queue *)

Lemma Array_indexOf_from_cases (x : value) (arr : list value) :
  forall i : Z,
    (Array_indexOf_from arr x i = -1 /\
     Forall (fun y => strictEq y x = false) arr) \/
    (exists l1 l2,
        arr = l1 ++ x :: l2 /\ x <> VNaN /\ ~ In x l1 /\
        Array_indexOf_from arr x i = i + len l1).
Proof.
  induction arr as [| y arr IH]; intros i; simpl.
  - left. split; [reflexivity | constructor].
  - destruct (strictEq y x) eqn:Hy.
    + apply strictEq_found in Hy. destruct Hy as [-> Hx].
      right. exists [], arr.
      split; [reflexivity |]. split; [exact Hx |]. split; [intros [] |].
      change (len (@nil value)) with 0. lia.
    + destruct (IH (i + 1))
        as [[Hr Hnone] | (l1 & l2 & El & Hx & Hnot & Hr)].
      * left. split; [exact Hr | constructor; assumption].
      * right. exists (y :: l1), l2. subst arr.
        split; [reflexivity |]. split; [exact Hx |].
        split.
        -- intros [H | H]; [| auto].
           subst y. rewrite strictEq_refl in Hy by exact Hx. discriminate.
        -- rewrite Hr, len_cons. lia.
Qed.

Lemma Queue_dequeue_n_app (l1 : list value) :
  forall (l2 : list value) (m : Z),
    Queue.dequeue_n (length l1)
      {| Queue.items := l1 ++ l2; Queue.maxSize := m |} =
      (Return l1, {| Queue.items := l2; Queue.maxSize := m |}).
Proof.
  induction l1 as [| x l1 IH]; intros l2 m; [reflexivity |].
  cbn [length Queue.dequeue_n app].
  rewrite Queue_dequeue_cons, IH. reflexivity.
Qed.

(** X3. For every value other than [NaN], [Queue.search] and
    [Queue.contains] agree: [search(item)] is -1 exactly when
    [contains(item)] is false.  For [NaN] they differ: [search(NaN)]
    is always -1 ([indexOf] compares with [===]) while
    [contains(NaN)] is true as soon as the queue holds [NaN].  In
    every case [search] lies between -1 and [size() - 1]. *)
Theorem Queue_search_contains (item : value) (q : Queue.t) :
  (item <> VNaN ->
   (Queue.search item q = -1 <-> Queue.contains item q = false)) /\
  Queue.search VNaN q = -1 /\
  (Queue.contains VNaN q = true <-> In VNaN (Queue.items q)) /\
  -1 <= Queue.search item q < Queue.size q.
Proof.
  unfold Queue.search, Queue.contains, Queue.size, Array_indexOf.
  pose proof (len_nonneg (Queue.items q)) as Hlen.
  split; [| split; [| split; [apply Array_includes_In |]]].
  - intros He. rewrite Array_includes_not_In.
    destruct (Array_indexOf_from_cases item (Queue.items q) 0)
      as [[Hr Hnone] | (l1 & l2 & El & _ & Hnot & Hr)].
    + apply none_strictEq_not_In in Hnone; [| exact He]. tauto.
    + rewrite Hr, El. pose proof (len_nonneg l1). split; [lia |].
      intros Hnot'. exfalso. apply Hnot'. rewrite in_app_iff. simpl. auto.
  - destruct (Array_indexOf_from_cases VNaN (Queue.items q) 0)
      as [[Hr _] | (l1 & l2 & _ & He & _)]; [exact Hr | contradiction].
  - destruct (Array_indexOf_from_cases item (Queue.items q) 0)
      as [[Hr _] | (l1 & l2 & El & _ & _ & Hr)]; rewrite Hr; [lia |].
    rewrite El, len_app, len_cons.
    pose proof (len_nonneg l1). pose proof (len_nonneg l2). lia.
Qed.

Lemma Queue_search_contains_witness :
  (Queue.search (VNum 2) {| Queue.items := [VNum 1; VNaN]; Queue.maxSize := 50 |}
     = -1 <->
   Queue.contains (VNum 2)
     {| Queue.items := [VNum 1; VNaN]; Queue.maxSize := 50 |} = false) /\
  Queue.search VNaN {| Queue.items := [VNum 1; VNaN]; Queue.maxSize := 50 |}
    = -1 /\
  Queue.contains VNaN {| Queue.items := [VNum 1; VNaN]; Queue.maxSize := 50 |}
    = true.
Proof.
  split; [| split].
  - apply (@Queue_search_contains (VNum 2)
             {| Queue.items := [VNum 1; VNaN]; Queue.maxSize := 50 |}).
    discriminate.
  - apply (@Queue_search_contains VNaN
             {| Queue.items := [VNum 1; VNaN]; Queue.maxSize := 50 |}).
  - apply (@Queue_search_contains VNaN
             {| Queue.items := [VNum 1; VNaN]; Queue.maxSize := 50 |}).
    simpl. auto.
Defined.

(** X4. [Queue.search(item)] counts the dequeues that bring [item] to
    the front: when it is not negative, that many calls of [dequeue()]
    return values other than [item], and [front()] then returns
    [item]. *)
Theorem Queue_search_dequeues (item : value) (q : Queue.t) :
  0 <= Queue.search item q ->
  exists dequeued q',
    Queue.dequeue_n (Z.to_nat (Queue.search item q)) q =
      (Return dequeued, q') /\
    ~ In item dequeued /\
    Queue.front q' = (Return item, q').
Proof.
  unfold Queue.search, Array_indexOf. intros Hfound.
  destruct (Array_indexOf_from_cases item (Queue.items q) 0) as
    [[Hr _] | (l1 & l2 & El & _ & Hnot & Hr)]; [lia |].
  rewrite Hr. destruct q as [arr m]. simpl in El. subst arr.
  exists l1, {| Queue.items := item :: l2; Queue.maxSize := m |}.
  split; [| split; [exact Hnot | reflexivity]].
  replace (Z.to_nat (0 + len l1)) with (length l1) by (unfold len; lia).
  apply Queue_dequeue_n_app.
Qed.

Lemma Queue_search_dequeues_witness :
  exists dequeued q',
    Queue.dequeue_n
      (Z.to_nat (Queue.search (VStr (str "Y"))
                   {| Queue.items := [VStr (str "X"); VStr (str "Y")];
                      Queue.maxSize := 50 |}))
      {| Queue.items := [VStr (str "X"); VStr (str "Y")];
         Queue.maxSize := 50 |} = (Return dequeued, q') /\
    ~ In (VStr (str "Y")) dequeued /\
    Queue.front q' = (Return (VStr (str "Y")), q').
Proof.
  apply (@Queue_search_dequeues (VStr (str "Y"))
           {| Queue.items := [VStr (str "X"); VStr (str "Y")];
              Queue.maxSize := 50 |}).
  vm_compute. discriminate.
Defined.

(** ** Reversing and iterating a stack *)

Lemma Stack_peek_last (s : Stack.t) :
  Stack.peek s = (Return (last (Stack.items s) VNull), s).
Proof.
  unfold Stack.peek, Stack.isEmpty.
  by_last (Stack.items s); [reflexivity |].
  rewrite Array_get_last, last_last, len_snoc.
  pose proof (len_nonneg l).
  destruct (Z.eqb_spec (len l + 1) 0); [lia | reflexivity].
Qed.

Lemma Stack_pop_n_all (arr : list value) (m : Z) :
  Stack.pop_n (length arr) {| Stack.items := arr; Stack.maxSize := m |} =
    (Return (rev arr), {| Stack.items := []; Stack.maxSize := m |}).
Proof. apply (Stack_pop_n_app arr [] m). Qed.

(** X5. [reverse()] never throws and keeps size and capacity; a second
    [reverse()] restores the stack; after it [peek()] returns what
    [getStats().bottom] was, and popping the stack out returns the
    elements in the order in which they were pushed. *)
Theorem Stack_reverse_contract (s : Stack.t) :
  exists s1,
    Stack.reverse s = (Return tt, s1) /\
    Stack.reverse s1 = (Return tt, s) /\
    Stack.size s1 = Stack.size s /\
    Stack.maxSize s1 = Stack.maxSize s /\
    Stack.peek s1 = (Return (Stack.stats_bottom (Stack.getStats s)), s1) /\
    Stack.pop_n (length (Stack.items s1)) s1 =
      (Return (Stack.items s),
       {| Stack.items := []; Stack.maxSize := Stack.maxSize s |}).
Proof.
  destruct s as [arr m]. eexists. split; [reflexivity |].
  unfold Stack.reverse, Stack.size. cbn [Stack.items Stack.maxSize].
  split; [rewrite rev_involutive; reflexivity |].
  split; [unfold len; rewrite length_rev; reflexivity |].
  split; [reflexivity |]. split.
  - rewrite Stack_peek_last. cbn [Stack.items Stack.getStats Stack.stats_bottom].
    destruct arr as [| x arr]; [reflexivity |].
    cbn [rev]. rewrite last_last, len_cons, Z.gtb_ltb.
    pose proof (len_nonneg arr).
    destruct (Z.ltb_spec 0 (1 + len arr)); [reflexivity | lia].
  - rewrite Stack_pop_n_all, rev_involutive. reflexivity.
Qed.

Lemma iterator_loop_app (l : list value) : forall above : list value,
  Stack.iterator_loop (l ++ above) (length l) (len l - 1) = rev l.
Proof.
  induction l as [| x l IH] using rev_ind; intros above; [reflexivity |].
  rewrite length_app, Nat.add_1_r, len_snoc, rev_unit.
  cbn [Stack.iterator_loop].
  replace (len l + 1 - 1) with (len l) by lia.
  rewrite <- app_assoc. cbn [app]. rewrite Array_get_middle.
  f_equal. apply IH.
Qed.

(** X6. Iterating over a stack yields its elements from the top down:
    the very sequence that popping the whole stack returns. *)
Theorem Stack_iterator_pops (s : Stack.t) :
  Stack.iterator s = rev (Stack.toArray s) /\
  Stack.pop_n (length (Stack.items s)) s =
    (Return (Stack.iterator s),
     {| Stack.items := []; Stack.maxSize := Stack.maxSize s |}).
Proof.
  assert (Hit : Stack.iterator s = rev (Stack.items s)).
  { unfold Stack.iterator.
    rewrite <- (app_nil_r (Stack.items s)) at 1. apply iterator_loop_app. }
  split; [exact Hit |].
  rewrite Hit. destruct s as [arr m]. apply Stack_pop_n_all.
Qed.

(** ** Merging two stacks *)

Lemma merge_loop_fits (arr : list value) : forall merged : Stack.t,
  Forall (fun v => isEmptyValue v = false) arr ->
  Stack.merge_loop arr merged =
    (Return tt,
     {| Stack.items :=
          Stack.items merged ++
          firstn (Z.to_nat (Stack.maxSize merged - len (Stack.items merged)))
            arr;
        Stack.maxSize := Stack.maxSize merged |}).
Proof.
  induction arr as [| item rest IH]; intros merged Hvals.
  - simpl. rewrite firstn_nil, app_nil_r. destruct merged; reflexivity.
  - inversion Hvals as [| ? ? Hitem Hrest]; subst.
    cbn [Stack.merge_loop]. unfold Stack.isFull. rewrite Z.geb_leb.
    destruct (Z.leb_spec (Stack.maxSize merged) (len (Stack.items merged)))
      as [Hfull | Hroom]; cbn [negb].
    + replace (Z.to_nat (Stack.maxSize merged - len (Stack.items merged)))
        with O by lia.
      simpl. rewrite app_nil_r. destruct merged; reflexivity.
    + rewrite Stack_push_ok by assumption.
      rewrite IH by assumption. cbn [Stack.items Stack.maxSize].
      rewrite len_snoc, <- app_assoc.
      replace (Z.to_nat (Stack.maxSize merged - len (Stack.items merged)))
        with (S (Z.to_nat (Stack.maxSize merged
                           - (len (Stack.items merged) + 1)))) by lia.
      reflexivity.
Qed.

(** X7. On a stack whose capacity is an integer, [merge(other)], when
    [other] holds no empty value, never throws: the new stack has the
    capacity of [this] and holds the elements of [this] followed by the
    first [maxSize - size] elements of [other], from its bottom (none
    when that is not positive, all when [other] has fewer); when [this]
    is within its capacity, the size of the new stack is the smaller of
    [maxSize] and [size + other.size]. *)
Theorem Stack_merge_fits (other this : Stack.t) :
  Forall (fun v => isEmptyValue v = false) (Stack.items other) ->
  exists merged,
    Stack.merge other this = Return merged /\
    Stack.maxSize merged = Stack.maxSize this /\
    Stack.items merged =
      Stack.items this ++
      firstn (Z.to_nat (Stack.maxSize this - Stack.size this))
        (Stack.items other) /\
    (Stack.size this <= Stack.maxSize this ->
     Stack.size merged =
       Z.min (Stack.maxSize this) (Stack.size this + Stack.size other)).
Proof.
  intros Hvals. unfold Stack.merge, Stack.toArray, Stack.clone.
  rewrite merge_loop_fits by assumption. cbn [Stack.items Stack.maxSize].
  eexists. split; [reflexivity |]. split; [reflexivity |].
  split; [reflexivity |].
  unfold Stack.size, Stack.getRemainingCapacity. cbn [Stack.items].
  intros Hinv. rewrite len_app. unfold len in *. rewrite length_firstn. lia.
Qed.

Lemma Stack_merge_fits_witness :
  exists merged,
    Stack.merge stack_ABC room_for_one = Return merged /\
    Stack.maxSize merged = 2 /\
    Stack.items merged = [VStr (str "A"); VStr (str "A")] /\
    (Stack.size room_for_one <= Stack.maxSize room_for_one ->
     Stack.size merged = 2).
Proof.
  apply (@Stack_merge_fits stack_ABC room_for_one).
  repeat constructor.
Defined.

(** ** The JSON form *)

(** X8. On a stack whose capacity is an integer,
    [Stack.fromJSON(stack.toJSON())] gives back the elements and the
    capacity of the stack, except that a capacity of 0 comes back as
    10; so every stack with an integer capacity other than 0 survives
    the round trip.  An object whose [type] is not 'Stack', and
    [null], are refused. *)
Theorem Stack_fromJSON_toJSON (s : Stack.t) :
  Stack.fromJSON (Some (Stack.toJSON s)) =
    Some {| Stack.items := Stack.items s;
            Stack.maxSize := if Stack.maxSize s =? 0 then 10
                             else Stack.maxSize s |} /\
  (Stack.maxSize s <> 0 -> Stack.fromJSON (Some (Stack.toJSON s)) = Some s) /\
  Stack.fromJSON None = None /\
  (forall j, Stack.json_type j <> Some "Stack"%string ->
             Stack.fromJSON (Some j) = None).
Proof.
  split; [reflexivity |]. split; [| split; [reflexivity |]].
  - intros Hcap. destruct s as [arr m]. unfold Stack.fromJSON. simpl in *.
    destruct (Z.eqb_spec m 0); [contradiction | reflexivity].
  - intros j Hty. unfold Stack.fromJSON.
    destruct (Stack.json_type j) as [ty |]; [| reflexivity].
    destruct (String.eqb_spec ty "Stack"); [subst; contradiction |].
    reflexivity.
Qed.

Lemma Stack_fromJSON_toJSON_witness :
  Stack.fromJSON (Some (Stack.toJSON stack_ABC)) = Some stack_ABC /\
  Stack.fromJSON (Some (Stack.toJSON (Stack.mk [] 0))) = Some (Stack.mk [] 10).
Proof.
  split.
  - apply (@Stack_fromJSON_toJSON stack_ABC). discriminate.
  - apply (@Stack_fromJSON_toJSON (Stack.mk [] 0)).
Defined.

(** ** Remaining capacity *)

(** X9. On a stack whose capacity is an integer of at most 2^53 in
    absolute value (so that the subtraction in
    [getRemainingCapacity()] is exact): [push(v)] succeeds exactly when
    [getRemainingCapacity()] is positive and [v] is not an empty value,
    and the push then lowers the remaining capacity by one; [isFull()]
    says that the remaining capacity is zero or less. *)
Theorem Stack_push_iff_capacity (v : value) (s : Stack.t) :
  Z.abs (Stack.maxSize s) <= 2 ^ 53 ->
  ((exists s', Stack.push v s = (Return true, s')) <->
   0 < Stack.getRemainingCapacity s /\ isEmptyValue v = false) /\
  (forall s',
     Stack.push v s = (Return true, s') ->
     Stack.getRemainingCapacity s' = Stack.getRemainingCapacity s - 1) /\
  (Stack.isFull s = true <-> Stack.getRemainingCapacity s <= 0).
Proof.
  intros _.
  unfold Stack.getRemainingCapacity, Stack.isFull, Stack.push.
  rewrite Z.geb_leb.
  destruct (Z.leb_spec (Stack.maxSize s) (len (Stack.items s)))
    as [Hfull | Hroom]; [| destruct (isEmptyValue v)].
  - split; [split; [intros [s' E]; discriminate | lia] |].
    split; [intros s' E; discriminate | split; [lia | reflexivity]].
  - split; [split; [intros [s' E] | intros [_ E]]; discriminate |].
    split; [intros s' E; discriminate | split; [discriminate | lia]].
  - split; [split; [intros _; split; [lia | reflexivity]
                   | intros _; eexists; reflexivity] |].
    split; [| split; [discriminate | lia]].
    intros s' E. inversion E. cbn [Stack.items Stack.maxSize].
    unfold Array_push. rewrite len_snoc. lia.
Qed.

Lemma Stack_push_iff_capacity_witness :
  Stack.getRemainingCapacity
    {| Stack.items := [VStr (str "A"); VStr (str "B")]; Stack.maxSize := 2 |} =
    Stack.getRemainingCapacity room_for_one - 1.
Proof.
  assert (Hsafe : Z.abs (Stack.maxSize room_for_one) <= 2 ^ 53)
    by (vm_compute; discriminate).
  apply (proj1 (proj2 (@Stack_push_iff_capacity (VStr (str "B")) room_for_one
                         Hsafe))).
  reflexivity.
Defined.

(** ** What a stack can hold *)

Lemma holds_values_skipn (k : nat) (arr : list value) :
  holds_values arr -> holds_values (skipn k arr).
Proof.
  unfold holds_values. intros H.
  rewrite <- (firstn_skipn k arr) in H. apply Forall_app in H. tauto.
Qed.

Lemma holds_values_slice (arr : list value) (start : number) :
  holds_values arr -> holds_values (Array_slice_number arr start).
Proof.
  intros H. destruct start; unfold Array_slice_number, Array_slice;
    apply holds_values_skipn; assumption.
Qed.

Lemma StackN_call_holds_values (m : StackN.method) (s : StackN.t) :
  holds_values (StackN.items s) ->
  holds_values (StackN.items (StackN.call m s)).
Proof.
  unfold holds_values. intros Hvals.
  destruct m as [v | | | | size |]; simpl.
  - unfold StackN.push. destruct (number_ge _ _); [assumption |].
    destruct (isEmptyValue v) eqn:Hv; [assumption |]. simpl.
    apply Forall_app. split; [assumption | repeat constructor; assumption].
  - unfold StackN.pop, StackN.isEmpty.
    destruct (Z.eqb_spec (len (StackN.items s)) 0); [assumption |].
    by_last (StackN.items s); [contradiction |].
    rewrite Array_pop_snoc. simpl. apply Forall_app in Hvals. tauto.
  - unfold StackN.peek. destruct (StackN.isEmpty s); assumption.
  - constructor.
  - unfold StackN.setMaxSize. destruct (number_lt _ _); [assumption |].
    simpl. destruct (number_gt _ _); [| assumption].
    apply holds_values_slice. assumption.
  - apply Forall_rev. assumption.
Qed.

Lemma StackN_peek_last (s : StackN.t) :
  StackN.peek s = (Return (last (StackN.items s) VNull), s).
Proof.
  unfold StackN.peek, StackN.isEmpty.
  by_last (StackN.items s); [reflexivity |].
  rewrite Array_get_last, last_last, len_snoc.
  pose proof (len_nonneg l).
  destruct (Z.eqb_spec (len l + 1) 0); [lia | reflexivity].
Qed.

Lemma Stack_call_inv (m : Stack.method) (s : Stack.t) :
  Stack.inv s /\ 0 < Stack.maxSize s ->
  Stack.inv (Stack.call m s) /\ 0 < Stack.maxSize (Stack.call m s).
Proof.
  intros [Hinv Hpos]. destruct m as [o |].
  - split; [apply Stack_exec_inv | apply Stack_exec_maxSize_pos]; assumption.
  - unfold Stack.inv, Stack.call, Stack.reverse in *. simpl.
    unfold len in *. rewrite length_rev. tauto.
Qed.

Lemma Stack_calls_isValid (ms : list Stack.method) :
  Stack.isValid (Stack.calls ms Stack.new) = true.
Proof.
  assert (H : forall s,
             Stack.inv s /\ 0 < Stack.maxSize s ->
             Stack.inv (Stack.calls ms s) /\
             0 < Stack.maxSize (Stack.calls ms s)).
  { induction ms as [| m ms IH]; intros s Hs; [exact Hs |].
    apply IH, Stack_call_inv, Hs. }
  destruct (H Stack.new) as ([_ Hle] & Hp).
  { unfold Stack.inv, len. simpl. lia. }
  unfold Stack.isValid. apply andb_true_iff. split.
  - apply Z.leb_le, Hle.
  - rewrite Z.gtb_ltb. apply Z.ltb_lt, Hp.
Qed.

(** X10. Whatever calls of push, pop, peek, clear, setMaxSize (with
    any number as its size) and reverse are made on a new stack, it
    never holds [undefined], [null] or ['']; so [peek()] returns [null]
    only on an empty stack.  As long as every size given to
    [setMaxSize] is an integer, [isValid()] answers [true] as well. *)
Theorem Stack_never_holds_empty_value (ms : list StackN.method) :
  Forall (fun v => isEmptyValue v = false)
    (StackN.items (StackN.calls ms StackN.new)) /\
  (fst (StackN.peek (StackN.calls ms StackN.new)) = Return VNull <->
   StackN.isEmpty (StackN.calls ms StackN.new) = true) /\
  (forall zs : list Stack.method,
     StackN.isValid (StackN.calls (map StackN.of_method zs) StackN.new)
       = true).
Proof.
  assert (H : forall s,
             holds_values (StackN.items s) ->
             holds_values (StackN.items (StackN.calls ms s))).
  { induction ms as [| m ms IH]; intros s Hv; [exact Hv |].
    apply IH, StackN_call_holds_values, Hv. }
  pose proof (H StackN.new (Forall_nil _)) as Hv.
  set (s := StackN.calls ms StackN.new) in *.
  split; [exact Hv |]. split.
  - rewrite StackN_peek_last. unfold StackN.isEmpty. simpl.
    by_last (StackN.items s); [split; reflexivity |].
    rewrite last_last, len_snoc. pose proof (len_nonneg l).
    apply Forall_app in Hv. destruct Hv as [_ Hx]. inversion Hx; subst.
    destruct (Z.eqb_spec (len l + 1) 0); [lia |].
    split; [| discriminate]. intros Hnull. inversion Hnull. subst. discriminate.
  - intros zs. change StackN.new with (StackN.of_Stack Stack.new).
    rewrite StackN_calls_of_Stack.
    destruct (StackN_of_Stack (Stack.calls zs Stack.new))
      as (_ & _ & _ & _ & _ & _ & ->).
    apply Stack_calls_isValid.
Qed.

(** * Further properties of the controllers *)

(** ** Trimming *)

Lemma trimStart_fixed (c : N) (s : jsstring) :
  isWhiteSpace c = false -> trimStart (c :: s) = c :: s.
Proof. intros Hc. simpl. rewrite Hc. reflexivity. Qed.

Lemma trimStart_head (s : jsstring) :
  trimStart s = [] \/
  exists c rest, trimStart s = c :: rest /\ isWhiteSpace c = false.
Proof.
  induction s as [| c s IH]; [left; reflexivity |].
  simpl. destruct (isWhiteSpace c) eqn:Hc; [exact IH |].
  right. exists c, s. split; [reflexivity | exact Hc].
Qed.

Lemma trimStart_idempotent (s : jsstring) :
  trimStart (trimStart s) = trimStart s.
Proof.
  destruct (trimStart_head s) as [E | (c & rest & E & Hc)]; rewrite E.
  - reflexivity.
  - apply trimStart_fixed, Hc.
Qed.

Lemma trimStart_snoc (l : jsstring) (c : N) :
  isWhiteSpace c = false -> trimStart (l ++ [c]) = trimStart l ++ [c].
Proof.
  intros Hc. induction l as [| x l IH]; simpl.
  - rewrite Hc. reflexivity.
  - destruct (isWhiteSpace x); [exact IH | reflexivity].
Qed.

(** The result of [trim] is empty or starts and ends with a character
    that is not white space. *)
Lemma trim_cases (s : jsstring) :
  trim s = [] \/
  exists c u,
    isWhiteSpace c = false /\ trim s = c :: rev u /\ trimStart u = u.
Proof.
  unfold trim, trimEnd.
  destruct (trimStart_head s) as [E | (c & rest & E & Hc)]; rewrite E.
  - left. reflexivity.
  - right. cbn [rev]. rewrite trimStart_snoc, rev_unit by exact Hc.
    exists c, (trimStart (rev rest)).
    split; [exact Hc |]. split; [reflexivity | apply trimStart_idempotent].
Qed.

Lemma trim_idempotent (s : jsstring) : trim (trim s) = trim s.
Proof.
  destruct (trim_cases s) as [E | (c & u & Hc & E & Hu)]; rewrite E.
  - reflexivity.
  - unfold trim, trimEnd. rewrite trimStart_fixed by exact Hc.
    cbn [rev]. rewrite rev_involutive, trimStart_snoc by exact Hc.
    rewrite Hu, rev_unit. reflexivity.
Qed.

(** ** The handlers of the stack controller *)

Lemma StackDemo_notify_stack_returns (w : page) (m : string) (v : value) :
  fst (StackDemo.notify w ("stack." ++ m) NoText v) = Return tt.
Proof.
  destruct w as [n |]; [| reflexivity].
  unfold StackDemo.notify. cbn [String.append String.eqb Ascii.eqb Bool.eqb].
  repeat match goal with
         | |- context [if ?b then _ else _] => destruct b
         end; reflexivity.
Qed.

Lemma StackDemo_notify_info_returns (w : page) (t : text) (v : value) :
  fst (StackDemo.notify w "info" t v) = Return tt.
Proof. destruct w as [n |]; reflexivity. Qed.

Lemma Stack_isEmpty_nil (s : Stack.t) :
  Stack.isEmpty s = true -> Stack.items s = [].
Proof.
  unfold Stack.isEmpty. intros H. apply Z.eqb_eq in H.
  destruct (Stack.items s); [reflexivity |].
  rewrite len_cons in H. pose proof (len_nonneg l). lia.
Qed.

Lemma Stack_pop_removelast (s : Stack.t) :
  Stack.isEmpty s = false ->
  Stack.pop s =
    (Return (last (Stack.items s) VNull),
     {| Stack.items := removelast (Stack.items s);
        Stack.maxSize := Stack.maxSize s |}).
Proof.
  intros Hne. unfold Stack.pop. rewrite Hne.
  unfold Stack.isEmpty in Hne.
  by_last (Stack.items s); [discriminate |].
  rewrite Array_pop_snoc, last_last, removelast_last. reflexivity.
Qed.

(** X11. The state [validateInput()] gives the Push button tells what
    [push()] will do: when it enables the button, [push()] returns
    normally, puts the trimmed input on top of the stack and empties
    the input; when it disables the button, [push()] leaves the stack
    and the input as they are. *)
Theorem StackDemo_validateInput_predicts_push (w : page) (this : StackDemo.t) :
  (fst (StackDemo.validateInput this) = false ->
   fst (StackDemo.push w this) =
     (Return tt,
      {| StackDemo.stack :=
           {| Stack.items :=
                Stack.items (StackDemo.stack this) ++
                [VStr (trim (StackDemo.input this))];
              Stack.maxSize := Stack.maxSize (StackDemo.stack this) |};
         StackDemo.input := [] |})) /\
  (fst (StackDemo.validateInput this) = true ->
   snd (fst (StackDemo.push w this)) = this).
Proof.
  unfold StackDemo.validateInput, StackDemo.push, Stack.size.
  destruct (trim (StackDemo.input this)) as [| c rest] eqn:E.
  - split; [discriminate |]. intros _.
    destruct (StackDemo.notify _ _ _ _). reflexivity.
  - destruct (len (c :: rest) >? 15).
    + split; [discriminate |]. intros _.
      destruct (StackDemo.notify _ _ _ _). reflexivity.
    + unfold Stack.push. cbn [isEmptyValue].
      destruct (_ >=? _).
      * split; [discriminate |]. intros _.
        destruct (StackDemo.notify _ _ _ _). destruct this; reflexivity.
      * split; [| discriminate]. intros _.
        pose proof (StackDemo_notify_stack_returns w "pushed"
                      (VStr (c :: rest))) as Hret.
        cbn [String.append] in Hret.
        destruct (StackDemo.notify w "stack.pushed" NoText (VStr (c :: rest)))
          as [r evs].
        simpl in Hret. subst r. reflexivity.
Qed.

Lemma StackDemo_validateInput_predicts_push_witness :
  fst (StackDemo.push (Some NotificationSystem) (StackDemo.new (str " A "))) =
    (Return tt,
     {| StackDemo.stack :=
          {| Stack.items := [VStr (str "A")]; Stack.maxSize := 10 |};
        StackDemo.input := [] |}) /\
  snd (fst (StackDemo.push (Some NotificationSystem) long_demo)) = long_demo.
Proof.
  split.
  - apply (@StackDemo_validateInput_predicts_push (Some NotificationSystem)
             (StackDemo.new (str " A "))). reflexivity.
  - apply (@StackDemo_validateInput_predicts_push (Some NotificationSystem)
             long_demo). reflexivity.
Defined.

Lemma StackDemo_pop_peek_clear_results (w : page) (this : StackDemo.t) :
  fst (StackDemo.pop w this) =
    (Return tt,
     {| StackDemo.stack :=
          {| Stack.items := removelast (Stack.items (StackDemo.stack this));
             Stack.maxSize := Stack.maxSize (StackDemo.stack this) |};
        StackDemo.input := StackDemo.input this |}) /\
  fst (StackDemo.peek w this) = (Return tt, this) /\
  fst (StackDemo.clear w this) =
    (Return tt,
     {| StackDemo.stack :=
          {| Stack.items := [];
             Stack.maxSize := Stack.maxSize (StackDemo.stack this) |};
        StackDemo.input := StackDemo.input this |}).
Proof.
  destruct this as [s text]. cbn [StackDemo.stack StackDemo.input].
  unfold StackDemo.pop, StackDemo.peek, StackDemo.clear.
  cbn [StackDemo.stack StackDemo.input].
  pose proof (StackDemo_notify_stack_returns w "empty" VNull) as Hempty.
  pose proof (StackDemo_notify_stack_returns w "cleared" VNull) as Hcleared.
  pose proof (StackDemo_notify_info_returns w
                (Lit "Stack is already empty") VNull) as Hinfo.
  cbn [String.append] in *.
  destruct (Stack.isEmpty s) eqn:Hs.
  - apply Stack_isEmpty_nil in Hs. destruct s as [arr m]. simpl in Hs.
    subst arr.
    destruct (StackDemo.notify w "stack.empty" NoText VNull) as [r1 e1].
    destruct (StackDemo.notify w "info" _ VNull) as [r2 e2].
    simpl in *. subst. repeat split.
  - rewrite Stack_pop_removelast by exact Hs.
    unfold Stack.peek. rewrite Hs. cbn [Stack.clear].
    pose proof (StackDemo_notify_stack_returns w "popped"
                  (last (Stack.items s) VNull)) as Hpopped.
    pose proof (StackDemo_notify_stack_returns w "peeked"
                  (Array_get (Stack.items s) (len (Stack.items s) - 1)))
      as Hpeeked.
    cbn [String.append] in *.
    destruct (StackDemo.notify w "stack.popped" _ _) as [r1 e1].
    destruct (StackDemo.notify w "stack.peeked" _ _) as [r2 e2].
    destruct (StackDemo.notify w "stack.cleared" _ _) as [r3 e3].
    simpl in *. subst. repeat split.
Qed.

(** X12. On a page without a notification object, and on one whose
    notification object has functions that return where the handlers
    call it (as [NotificationSystem] has), the handlers [pop()],
    [peek()] and [clear()] never throw: the underflow of [Stack.pop]
    cannot escape.
    [pop()] removes the top when there is one, [peek()] changes
    nothing, [clear()] leaves the stack empty; none touches the
    capacity or the input. *)
Theorem StackDemo_handlers_never_throw (w : page) (this : StackDemo.t) :
  fst (StackDemo.pop w this) =
    (Return tt,
     {| StackDemo.stack :=
          {| Stack.items := removelast (Stack.items (StackDemo.stack this));
             Stack.maxSize := Stack.maxSize (StackDemo.stack this) |};
        StackDemo.input := StackDemo.input this |}) /\
  fst (StackDemo.peek w this) = (Return tt, this) /\
  fst (StackDemo.clear w this) =
    (Return tt,
     {| StackDemo.stack :=
          {| Stack.items := [];
             Stack.maxSize := Stack.maxSize (StackDemo.stack this) |};
        StackDemo.input := StackDemo.input this |}).
Proof. exact (StackDemo_pop_peek_clear_results w this). Qed.

(** X13. With the [NotificationSystem] of this repository loaded, the
    stack controller is silent: [push()], [pop()] and [peek()] deliver
    no notification in any state, and [clear()] delivers one only to
    say that the stack is already empty. *)
Theorem StackDemo_silent (this : StackDemo.t) :
  snd (StackDemo.push (Some NotificationSystem) this) = [] /\
  snd (StackDemo.pop (Some NotificationSystem) this) = [] /\
  snd (StackDemo.peek (Some NotificationSystem) this) = [] /\
  snd (StackDemo.clear (Some NotificationSystem) this) =
    if Stack.isEmpty (StackDemo.stack this)
    then [NotifyCall "info" (Lit "Stack is already empty")]
    else [].
Proof.
  unfold StackDemo.push, StackDemo.pop, StackDemo.peek, StackDemo.clear.
  repeat split.
  - destruct (trim (StackDemo.input this)); [reflexivity |].
    destruct (_ >? _); [reflexivity |].
    destruct (Stack.push _ _) as [[b | e] s']; reflexivity.
  - destruct (Stack.isEmpty _); [reflexivity |].
    destruct (Stack.pop _) as [[v | e] s']; reflexivity.
  - destruct (Stack.isEmpty _); [reflexivity |].
    destruct (Stack.peek _) as [[v | e] s']; reflexivity.
  - destruct (Stack.isEmpty _); reflexivity.
Qed.

(** ** Loading a state *)

Lemma StackDemo_clear_cleared (w : page) (this : StackDemo.t) :
  exists evs,
    StackDemo.clear w this =
      (Return tt,
       {| StackDemo.stack :=
            {| Stack.items := [];
               Stack.maxSize := Stack.maxSize (StackDemo.stack this) |};
          StackDemo.input := StackDemo.input this |},
       evs).
Proof.
  pose proof (StackDemo_pop_peek_clear_results w this) as (_ & _ & H).
  destruct (StackDemo.clear w this) as [p evs]. simpl in H. subst p.
  exists evs. reflexivity.
Qed.

Lemma Stack_push_all_overflow (arr : list value) : forall s : Stack.t,
  holds_values arr ->
  len (Stack.items s) <= Stack.maxSize s < len (Stack.items s) + len arr ->
  Stack.push_all arr s =
    (Throw StackOverflow,
     {| Stack.items :=
          Stack.items s ++
          firstn (Z.to_nat (Stack.maxSize s - len (Stack.items s))) arr;
        Stack.maxSize := Stack.maxSize s |}).
Proof.
  induction arr as [| v arr IH]; intros s Hvals Hcap.
  - change (len (@nil value)) with 0 in Hcap. lia.
  - inversion Hvals as [| ? ? Hv Hrest]; subst.
    rewrite len_cons in Hcap. cbn [Stack.push_all].
    destruct (Z.eq_dec (len (Stack.items s)) (Stack.maxSize s)) as [Hfull | Hroom].
    + unfold Stack.push. rewrite Z.geb_leb.
      destruct (Z.leb_spec (Stack.maxSize s) (len (Stack.items s))); [| lia].
      replace (Z.to_nat (Stack.maxSize s - len (Stack.items s))) with O by lia.
      simpl. rewrite app_nil_r. destruct s; reflexivity.
    + rewrite Stack_push_ok by (trivial; lia).
      rewrite IH; cbn [Stack.items Stack.maxSize];
        [| assumption | rewrite len_snoc; lia].
      rewrite len_snoc, <- app_assoc.
      replace (Z.to_nat (Stack.maxSize s - len (Stack.items s)))
        with (S (Z.to_nat (Stack.maxSize s - (len (Stack.items s) + 1))))
        by lia.
      reflexivity.
Qed.

(** X14. [loadState(items)] followed by [getState()] is a round trip:
    for an array without empty values that fits the capacity,
    [loadState] returns normally and [getState()] then reports exactly
    that array, its length, and its last element as the top. *)
Theorem StackDemo_loadState_getState
  (w : page) (arr : list value) (this : StackDemo.t) :
  holds_values arr ->
  len arr <= Stack.maxSize (StackDemo.stack this) ->
  exists this',
    fst (StackDemo.loadState w arr this) = (Return tt, this') /\
    StackDemo.getState this' =
      {| StackDemo.state_items := arr;
         StackDemo.state_size := len arr;
         StackDemo.state_isEmpty := len arr =? 0;
         StackDemo.state_top := last arr VNull |} /\
    StackDemo.input this' = StackDemo.input this.
Proof.
  intros Hvals Hcap. unfold StackDemo.loadState.
  destruct (StackDemo_clear_cleared w this) as [evs ->].
  cbn [StackDemo.stack StackDemo.input].
  rewrite Stack_push_all_ok;
    [| assumption | change (len (@nil value)) with 0; simpl; lia].
  cbn [Stack.items Stack.maxSize app]. eexists. split; [reflexivity |].
  split; [| reflexivity].
  unfold StackDemo.getState. cbn [StackDemo.stack].
  rewrite Stack_peek_last. reflexivity.
Qed.

Lemma StackDemo_loadState_getState_witness :
  exists this',
    fst (StackDemo.loadState None
           [VStr (str "A"); VNum 7] (StackDemo.new [])) = (Return tt, this') /\
    StackDemo.getState this' =
      {| StackDemo.state_items := [VStr (str "A"); VNum 7];
         StackDemo.state_size := 2;
         StackDemo.state_isEmpty := false;
         StackDemo.state_top := VNum 7 |} /\
    StackDemo.input this' = [].
Proof.
  apply (@StackDemo_loadState_getState None
           [VStr (str "A"); VNum 7] (StackDemo.new [])).
  - repeat constructor.
  - vm_compute. discriminate.
Defined.

(** X15. [loadState(items)] with more elements than the capacity does
    not load them all: it throws the overflow error of [Stack.push]
    and leaves the stack holding the first [maxSize] elements. *)
Theorem StackDemo_loadState_overflow
  (w : page) (arr : list value) (this : StackDemo.t) :
  holds_values arr ->
  0 <= Stack.maxSize (StackDemo.stack this) < len arr ->
  exists this',
    fst (StackDemo.loadState w arr this) = (Throw StackOverflow, this') /\
    Stack.items (StackDemo.stack this') =
      firstn (Z.to_nat (Stack.maxSize (StackDemo.stack this))) arr /\
    Stack.maxSize (StackDemo.stack this') =
      Stack.maxSize (StackDemo.stack this).
Proof.
  intros Hvals Hcap. unfold StackDemo.loadState.
  destruct (StackDemo_clear_cleared w this) as [evs ->].
  cbn [StackDemo.stack StackDemo.input].
  rewrite Stack_push_all_overflow;
    [| assumption
     | cbn [Stack.items Stack.maxSize];
       change (len (@nil value)) with 0; lia].
  cbn [Stack.items Stack.maxSize app]. change (len (@nil value)) with 0.
  rewrite Z.sub_0_r. eexists. repeat split.
Qed.

Lemma StackDemo_loadState_overflow_witness :
  exists this',
    fst (StackDemo.loadState None
           [VNum 1; VNum 2; VNum 3]
           {| StackDemo.stack := room_for_one; StackDemo.input := [] |}) =
      (Throw StackOverflow, this') /\
    Stack.items (StackDemo.stack this') = [VNum 1; VNum 2] /\
    Stack.maxSize (StackDemo.stack this') = 2.
Proof.
  apply (@StackDemo_loadState_overflow None [VNum 1; VNum 2; VNum 3]
           {| StackDemo.stack := room_for_one; StackDemo.input := [] |}).
  - repeat constructor.
  - vm_compute. split; [discriminate | reflexivity].
Defined.

(** ** What the stack controller lets into its stack *)

Lemma Forall_removelast (A : Type) (P : A -> Prop) (l : list A) :
  Forall P l -> Forall P (removelast l).
Proof.
  intros H. destruct l as [| a l] using rev_ind; [exact H |].
  rewrite removelast_last. apply Forall_app in H. tauto.
Qed.

Lemma StackDemo_push_state (w : page) (this : StackDemo.t) :
  snd (fst (StackDemo.push w this)) = this \/
  (trim (StackDemo.input this) <> [] /\
   len (trim (StackDemo.input this)) <= 15 /\
   len (Stack.items (StackDemo.stack this)) <
     Stack.maxSize (StackDemo.stack this) /\
   snd (fst (StackDemo.push w this)) =
     {| StackDemo.stack :=
          {| Stack.items :=
               Stack.items (StackDemo.stack this) ++
               [VStr (trim (StackDemo.input this))];
             Stack.maxSize := Stack.maxSize (StackDemo.stack this) |};
        StackDemo.input := [] |}).
Proof.
  unfold StackDemo.push.
  destruct (trim (StackDemo.input this)) as [| c rest] eqn:E.
  - left. destruct (StackDemo.notify _ _ _ _). reflexivity.
  - rewrite Z.gtb_ltb. destruct (Z.ltb_spec 15 (len (c :: rest))).
    + left. destruct (StackDemo.notify _ _ _ _). reflexivity.
    + unfold Stack.push. cbn [isEmptyValue]. rewrite Z.geb_leb.
      destruct (Z.leb_spec (Stack.maxSize (StackDemo.stack this))
                  (len (Stack.items (StackDemo.stack this)))).
      * left. destruct (StackDemo.notify _ _ _ _). destruct this; reflexivity.
      * right. split; [discriminate |]. split; [assumption |].
        split; [assumption |].
        destruct (StackDemo.notify w "stack.pushed" _ _) as [[u | e] evs];
          [reflexivity |].
        destruct (StackDemo.notify w "stack.overflow" _ _). reflexivity.
Qed.

(** X16. Whatever the user types and clicks, the stack of the
    controller only ever holds trimmed, non-empty strings of at most 15
    code units, its capacity stays 10, and it never holds more than 10
    elements. *)
Theorem StackDemo_holds_short_texts
  (w : page) (text : jsstring) (cs : list StackDemo.command) :
  Forall short_text
    (Stack.items (StackDemo.stack (StackDemo.steps w cs (StackDemo.new text))))
  /\
  Stack.maxSize (StackDemo.stack (StackDemo.steps w cs (StackDemo.new text)))
    = 10 /\
  Stack.size (StackDemo.stack (StackDemo.steps w cs (StackDemo.new text)))
    <= 10.
Proof.
  unfold Stack.size.
  assert (H : forall d,
             Forall short_text (Stack.items (StackDemo.stack d)) /\
             Stack.maxSize (StackDemo.stack d) = 10 /\
             len (Stack.items (StackDemo.stack d)) <= 10 ->
             Forall short_text
               (Stack.items (StackDemo.stack (StackDemo.steps w cs d))) /\
             Stack.maxSize (StackDemo.stack (StackDemo.steps w cs d)) = 10 /\
             len (Stack.items (StackDemo.stack (StackDemo.steps w cs d)))
               <= 10).
  { induction cs as [| c cs IH]; intros d Hd; [exact Hd |].
    apply IH. clear IH. destruct Hd as (Hv & Hm & Hl).
    pose proof (StackDemo_pop_peek_clear_results w d) as (Hpop & Hpeek & Hclear).
    destruct c; cbn [StackDemo.step].
    - tauto.
    - destruct (StackDemo_push_state w d) as [-> | (Hne & Hshort & Hroom & ->)];
        [tauto |].
      cbn [StackDemo.stack Stack.items Stack.maxSize].
      split; [| split; [assumption | rewrite len_snoc; lia]].
      apply Forall_app. split; [assumption |]. repeat constructor.
      exists (trim (StackDemo.input d)).
      split; [reflexivity |]. split; [assumption |].
      split; [apply trim_idempotent | assumption].
    - rewrite Hpop. cbn [snd StackDemo.stack Stack.items Stack.maxSize].
      split; [apply Forall_removelast; assumption |].
      split; [assumption |].
      destruct (snoc_cases (Stack.items (StackDemo.stack d)))
        as [E | (l & x & E)]; rewrite E in *; [simpl; assumption |].
      rewrite removelast_last. rewrite len_snoc in Hl. lia.
    - rewrite Hpeek. tauto.
    - rewrite Hclear. cbn [snd StackDemo.stack Stack.items Stack.maxSize].
      split; [constructor |]. split; [assumption |].
      change (len (@nil value)) with 0. lia. }
  apply H. cbn. split; [constructor |]. split; [reflexivity |].
  change (len (@nil value)) with 0. lia.
Qed.

(** ** The handlers of the queue controller *)

Lemma Queue_isEmpty_nil (q : Queue.t) :
  Queue.isEmpty q = true -> Queue.items q = [].
Proof.
  unfold Queue.isEmpty. intros H. apply Z.eqb_eq in H.
  destruct (Queue.items q); [reflexivity |].
  rewrite len_cons in H. pose proof (len_nonneg l). lia.
Qed.

Lemma QueueDemo_showNotification_type
  (w : page) (m1 m2 : text) (t1 t2 : string) :
  t1 <> t2 ->
  QueueDemo.showNotification w m1 t1 <> QueueDemo.showNotification w m2 t2.
Proof.
  intros Hneq. unfold QueueDemo.showNotification.
  destruct w as [n |];
    [destruct (has (methods n) t1), (has (methods n) t2) |];
    intros E; inversion E; contradiction.
Qed.

(** The state the click on Enqueue leaves. *)
Lemma QueueDemo_click_state (w : page) (this : QueueDemo.t) :
  fst (QueueDemo.onEnqueueClick w this) = this \/
  exists raw,
    QueueDemo.inputField this = Some raw /\ trim raw <> [] /\
    ((Queue.maxSize (QueueDemo.queue this)
        <= len (Queue.items (QueueDemo.queue this)) /\
      fst (QueueDemo.onEnqueueClick w this) =
        {| QueueDemo.queue := QueueDemo.queue this;
           QueueDemo.inputField := Some [] |}) \/
     (len (Queue.items (QueueDemo.queue this))
        < Queue.maxSize (QueueDemo.queue this) /\
      fst (QueueDemo.onEnqueueClick w this) =
        {| QueueDemo.queue :=
             {| Queue.items :=
                  Queue.items (QueueDemo.queue this) ++ [VStr (trim raw)];
                Queue.maxSize := Queue.maxSize (QueueDemo.queue this) |};
           QueueDemo.inputField := Some [] |})).
Proof.
  unfold QueueDemo.onEnqueueClick.
  destruct (QueueDemo.inputField this) as [raw |] eqn:Hfield;
    [| left; reflexivity].
  destruct (trim raw) as [| c rest] eqn:E; [left; reflexivity |].
  right. exists raw. rewrite E. split; [reflexivity |].
  split; [discriminate |].
  unfold QueueDemo.enqueue, Queue.enqueue, Queue.size. rewrite Z.geb_leb.
  destruct (Z.leb_spec (Queue.maxSize (QueueDemo.queue this))
              (len (Queue.items (QueueDemo.queue this)))).
  - left. split; [assumption | reflexivity].
  - right. split; [assumption | reflexivity].
Qed.

(** The click with [" XY "] in the input enqueues ["XY"] and empties
    the input. *)
Example QueueDemo_click_trims :
  fst (QueueDemo.onEnqueueClick None (QueueDemo.new (Some (str " XY ")))) =
    {| QueueDemo.queue :=
         {| Queue.items := [VStr (str "XY")]; Queue.maxSize := 50 |};
       QueueDemo.inputField := Some [] |}.
Proof. reflexivity. Qed.

Lemma In_trimStart (c : N) (s : jsstring) : In c (trimStart s) -> In c s.
Proof.
  induction s as [| x s IH]; simpl; [tauto |].
  destruct (isWhiteSpace x); [intros H; right; apply IH, H | tauto].
Qed.

Lemma In_trim (c : N) (s : jsstring) : In c (trim s) -> In c s.
Proof.
  unfold trim, trimEnd. intros H.
  apply In_trimStart. apply in_rev in H. apply In_trimStart in H.
  apply in_rev. exact H.
Qed.

Lemma plain_trim (s : jsstring) : QueueDemo.plain s -> QueueDemo.plain (trim s).
Proof. unfold QueueDemo.plain. intros H Hin. apply H, In_trim, Hin. Qed.

(** X17. As long as no typed text holds a ['<'] (so that
    [updateDisplay()], which writes the queued values into
    [innerHTML], builds no element out of them): whatever the user
    types and clicks, the queue of the controller only ever holds
    trimmed, non-empty strings without ['<'], its capacity stays 50
    and it never holds more than 50 elements; so the Front button
    answers with the 'queue is empty' warning exactly when the queue
    is empty. *)
Theorem QueueDemo_holds_entered_texts
  (w : page) (field : option jsstring) (cs : list QueueDemo.command) :
  QueueDemo.plain_field field ->
  Forall QueueDemo.plain_command cs ->
  Forall entered_text
    (Queue.items (QueueDemo.queue (QueueDemo.steps w cs (QueueDemo.new field))))
  /\
  Forall QueueDemo.plain_value
    (Queue.items (QueueDemo.queue (QueueDemo.steps w cs (QueueDemo.new field))))
  /\
  Queue.maxSize (QueueDemo.queue (QueueDemo.steps w cs (QueueDemo.new field)))
    = 50 /\
  Queue.size (QueueDemo.queue (QueueDemo.steps w cs (QueueDemo.new field)))
    <= 50 /\
  (snd (QueueDemo.viewFront w (QueueDemo.steps w cs (QueueDemo.new field))) =
     QueueDemo.showNotification w (Lit "Queue đang trống!") "warning" <->
   Queue.isEmpty
     (QueueDemo.queue (QueueDemo.steps w cs (QueueDemo.new field))) = true).
Proof.
  unfold Queue.size. intros Hfield Hcs.
  assert (H : forall d,
             Forall entered_text (Queue.items (QueueDemo.queue d)) /\
             Forall QueueDemo.plain_value (Queue.items (QueueDemo.queue d)) /\
             QueueDemo.plain_field (QueueDemo.inputField d) /\
             Queue.maxSize (QueueDemo.queue d) = 50 /\
             len (Queue.items (QueueDemo.queue d)) <= 50 ->
             Forall entered_text
               (Queue.items (QueueDemo.queue (QueueDemo.steps w cs d))) /\
             Forall QueueDemo.plain_value
               (Queue.items (QueueDemo.queue (QueueDemo.steps w cs d))) /\
             Queue.maxSize (QueueDemo.queue (QueueDemo.steps w cs d)) = 50 /\
             len (Queue.items (QueueDemo.queue (QueueDemo.steps w cs d)))
               <= 50).
  { clear Hfield. induction cs as [| c cs IH]; intros d Hd; [tauto |].
    inversion Hcs as [| ? ? Hc Hrest]; subst.
    apply (IH Hrest). clear IH. destruct Hd as (Hv & Hp & Hf & Hm & Hl).
    destruct c; cbn [QueueDemo.step].
    - cbn [QueueDemo.queue QueueDemo.inputField].
      repeat split; try assumption.
      destruct (QueueDemo.inputField d); [exact Hc | exact I].
    - destruct (QueueDemo_click_state w d)
        as [-> | (raw & Hraw & Hne & [[_ ->] | [Hroom ->]])];
        cbn [QueueDemo.queue QueueDemo.inputField Queue.items Queue.maxSize].
      + tauto.
      + repeat split; try assumption. intros [].
      + rewrite Hraw in Hf. simpl in Hf.
        split; [| split; [| split; [intros [] |
                                    split; [assumption
                                           | rewrite len_snoc; lia]]]].
        * apply Forall_app. split; [assumption |]. repeat constructor.
          exists (trim raw). split; [reflexivity |].
          split; [assumption | apply trim_idempotent].
        * apply Forall_app. split; [assumption |]. repeat constructor.
          exists (trim raw). split; [reflexivity | apply plain_trim, Hf].
    - unfold QueueDemo.dequeue, Queue.dequeue.
      destruct (Queue.isEmpty (QueueDemo.queue d)); [tauto |].
      destruct (Queue.items (QueueDemo.queue d)) as [| x l] eqn:E;
        cbn [Array_shift fst QueueDemo.queue QueueDemo.inputField
             Queue.items Queue.maxSize].
      + repeat split; try assumption; constructor.
      + inversion Hv; subst. inversion Hp; subst. rewrite len_cons in Hl.
        repeat split; try assumption; lia.
    - unfold QueueDemo.viewFront, Queue.front.
      destruct (Queue.isEmpty (QueueDemo.queue d)); cbn; tauto.
    - cbn. repeat split; try assumption; try constructor.
      change (len (@nil value)) with 0. lia. }
  destruct (H (QueueDemo.new field)) as (Hv & Hp & Hm & Hl).
  { cbn. repeat split; try constructor; try assumption.
    change (len (@nil value)) with 0. lia. }
  set (d := QueueDemo.steps w cs (QueueDemo.new field)) in *.
  split; [exact Hv |]. split; [exact Hp |].
  split; [exact Hm |]. split; [exact Hl |].
  unfold QueueDemo.viewFront, Queue.front.
  destruct (Queue.isEmpty (QueueDemo.queue d)) eqn:Hempty.
  - cbn. split; reflexivity.
  - unfold Queue.isEmpty in Hempty.
    destruct (Queue.items (QueueDemo.queue d)) as [| x l] eqn:E;
      [discriminate |].
    inversion Hv as [| ? ? (s & -> & _) _]; subst.
    cbn [snd]. change (Array_get (VStr s :: l) 0) with (VStr s). cbn iota.
    split; [| discriminate]. intros Hsame. exfalso.
    revert Hsame. apply QueueDemo_showNotification_type. discriminate.
Qed.

Lemma QueueDemo_holds_entered_texts_witness :
  Queue.items
    (QueueDemo.queue
       (QueueDemo.steps None
          [QueueDemo.TypeText (str " A "); QueueDemo.ClickEnqueue]
          (QueueDemo.new (Some [])))) = [VStr (str "A")] /\
  Forall entered_text
    (Queue.items
       (QueueDemo.queue
          (QueueDemo.steps None
             [QueueDemo.TypeText (str " A "); QueueDemo.ClickEnqueue]
             (QueueDemo.new (Some []))))).
Proof.
  split; [reflexivity |].
  apply (@QueueDemo_holds_entered_texts None (Some [])
           [QueueDemo.TypeText (str " A "); QueueDemo.ClickEnqueue]).
  - intros [].
  - repeat constructor. simpl. intros [H | [H | [H | []]]]; discriminate.
Defined.

(** X18. On overflow the click on Enqueue loses the typed text: when
    the input is not blank and the queue is at its capacity, the queue
    stays as it is, the error notification carries the overflow
    message of [Queue.enqueue], and the input is emptied all the
    same. *)
Theorem QueueDemo_click_overflow_clears_input
  (w : page) (raw : jsstring) (this : QueueDemo.t) :
  QueueDemo.inputField this = Some raw ->
  trim raw <> [] ->
  Queue.maxSize (QueueDemo.queue this) <= Queue.size (QueueDemo.queue this) ->
  QueueDemo.onEnqueueClick w this =
    ({| QueueDemo.queue := QueueDemo.queue this;
        QueueDemo.inputField := Some [] |},
     QueueDemo.showNotification w
       (ErrorMessage (QueueOverflow (Queue.maxSize (QueueDemo.queue this))))
       "error").
Proof.
  intros Hfield Hne Hfull. unfold QueueDemo.onEnqueueClick.
  rewrite Hfield. destruct (trim raw) as [| c rest]; [contradiction |].
  unfold QueueDemo.enqueue, Queue.enqueue. rewrite Z.geb_leb.
  destruct (Z.leb_spec (Queue.maxSize (QueueDemo.queue this))
              (Queue.size (QueueDemo.queue this))); [reflexivity | lia].
Qed.

Lemma QueueDemo_click_overflow_clears_input_witness :
  QueueDemo.onEnqueueClick (Some NotificationSystem)
    {| QueueDemo.queue := {| Queue.items := [VNum 1]; Queue.maxSize := 1 |};
       QueueDemo.inputField := Some (str "B") |} =
    ({| QueueDemo.queue := {| Queue.items := [VNum 1]; Queue.maxSize := 1 |};
        QueueDemo.inputField := Some [] |},
     QueueDemo.showNotification (Some NotificationSystem)
       (ErrorMessage (QueueOverflow 1)) "error").
Proof.
  apply (@QueueDemo_click_overflow_clears_input (Some NotificationSystem)
           (str "B")
           {| QueueDemo.queue :=
                {| Queue.items := [VNum 1]; Queue.maxSize := 1 |};
              QueueDemo.inputField := Some (str "B") |}).
  - reflexivity.
  - vm_compute. discriminate.
  - vm_compute. discriminate.
Defined.
